(** * Croner Document Manager: the navigation-and-search state engine

    A shallow embedding of the two hooks that hold the program's state,
    [useDocuments] (path, sort option, filter, debounce, navigation) and
    [useKeyboardNavigation] (the focus index driven by key events), with
    the properties of the specification proved about them.

    Conventions of the embedding.
    - A JavaScript string is its sequence of UTF-16 code units, [list N];
      the empty string is [[]] and [===] on strings is equality of the
      sequences.
    - [String.prototype.localeCompare] and [String.prototype.toLowerCase]
      are supplied by the host (ICU collation, Unicode case mapping); they
      are the two fields of the class [HostStrings].
    - [Array.prototype.sort] is stable (ECMAScript 2019); it is embedded as
      the stable insertion sort [array_sort], which is the result of every
      stable sort when the comparator is consistent.
    - React state is a record; every [setX] is a record update.  An [async]
      callback is split at its [await]: the part before it runs on the
      state of the render that created the callback and yields a
      [Continuation] holding the values the closure captured, the part
      after it is [resume].  The debounce effect is the field
      [debounceTimer]: the pending timeout and the filename it captured. *)

From Stdlib Require Import String Ascii.
From Stdlib Require Import List ZArith NArith Bool Lia Permutation Sorted.
Import ListNotations.
Open Scope Z_scope.
Set Warnings "-register-all".

(** ** JavaScript strings *)

Definition jsstring := list N.

(** A literal of the source, as code units. *)
Definition js (s : string) : jsstring :=
  map N_of_ascii (list_ascii_of_string s).

Fixpoint strictEq (a b : jsstring) : bool :=
  match a, b with
  | [], [] => true
  | x :: a', y :: b' => N.eqb x y && strictEq a' b'
  | _, _ => false
  end.

(** WhiteSpace and LineTerminator of ECMAScript: what [trim] strips and
    what [\s] matches. *)
Definition isWhiteSpace (c : N) : bool :=
  (N.leb 9 c && N.leb c 13) || N.eqb c 32 || N.eqb c 160 || N.eqb c 5760
  || (N.leb 8192 c && N.leb c 8202) || N.eqb c 8232 || N.eqb c 8233
  || N.eqb c 8239 || N.eqb c 8287 || N.eqb c 12288 || N.eqb c 65279.

Fixpoint trimStart (s : jsstring) : jsstring :=
  match s with
  | [] => []
  | c :: s' => if isWhiteSpace c then trimStart s' else s
  end.

Definition trimEnd (s : jsstring) : jsstring := rev (trimStart (rev s)).

Definition trim (s : jsstring) : jsstring := trimEnd (trimStart s).

Fixpoint startsWith (s prefix : jsstring) : bool :=
  match prefix, s with
  | [], _ => true
  | p :: prefix', c :: s' => N.eqb p c && startsWith s' prefix'
  | _ :: _, [] => false
  end.

Fixpoint includes (s sub : jsstring) : bool :=
  startsWith s sub ||
  match s with
  | [] => false
  | _ :: s' => includes s' sub
  end.

(** The eight characters of the character class of the first regular
    expression: less-than, greater-than, colon, double quote, backslash,
    vertical bar, question mark, asterisk. *)
Definition invalidChars : list N := [60; 62; 58; 34; 92; 124; 63; 42]%N.

(** The test of the first regular expression: some code unit of the
    input is in the class. *)
Definition testInvalidChars (input : jsstring) : bool :=
  existsb (fun c => existsb (N.eqb c) invalidChars) input.

(** The test of the second regular expression, three or more [\s] in a
    row. *)
Fixpoint testExcessiveSpaces (input : jsstring) : bool :=
  match input with
  | a :: ((b :: c :: _) as rest) =>
      (isWhiteSpace a && isWhiteSpace b && isWhiteSpace c)
      || testExcessiveSpaces rest
  | _ => false
  end.

Definition tooLongMessage : jsstring :=
  js "Search term too long (max 50 characters)".
Definition invalidCharsMessage : jsstring :=
  js "Invalid characters in search term".
Definition excessiveSpacesMessage : jsstring :=
  js "Too many consecutive spaces".

(** ** types/document.ts *)

Inductive FileType := pdf | doc | csv | mov.

(** [DocumentItem = FileItem | FolderItem].  The declared type of [files]
    is [FileItem[]]; the traversal of [useDocuments] looks for folders at
    every level, so the embedding lets a folder hold any item. *)
Inductive DocumentItem :=
| FileItem (type : FileType) (name : jsstring) (added : jsstring)
| FolderItem (name : jsstring) (files : list DocumentItem).

Definition name (item : DocumentItem) : jsstring :=
  match item with
  | FileItem _ n _ => n
  | FolderItem n _ => n
  end.

Definition isFolderItem (item : DocumentItem) : bool :=
  match item with
  | FolderItem _ _ => true
  | FileItem _ _ _ => false
  end.

Definition isFileItem (item : DocumentItem) : bool := negb (isFolderItem item).

Inductive SortField := by_name | by_date.
Inductive SortDirection := asc | desc.

Record SortOption := { field : SortField; direction : SortDirection }.

Record FilterOptions := { filename : jsstring }.

(** ** Array.prototype.sort and find *)

Section ArraySort.
Context {A : Type}.
Variable compareFn : A -> A -> Z.

(** [x] goes before the first element it does not sort after. *)
Fixpoint sort_insert (x : A) (l : list A) : list A :=
  match l with
  | [] => [x]
  | y :: l' => if compareFn x y <=? 0 then x :: l else y :: sort_insert x l'
  end.

Definition array_sort (l : list A) : list A := fold_right sort_insert [] l.

(** The comparator lets [x] stand before [y]. *)
Definition sorts_before (x y : A) : Prop := compareFn x y <= 0.
End ArraySort.

(** ** The host's string services *)

Class HostStrings := {
  localeCompare : jsstring -> jsstring -> Z;
  toLowerCase : jsstring -> jsstring
}.

(** ** hooks/useDocuments *)

Record State := {
  documents : list DocumentItem;
  currentPath : list jsstring;
  sortOption : SortOption;
  filterOptions : FilterOptions;
  debouncedFilter : jsstring;
  isLoading : bool;
  searchError : jsstring;
  (** the timeout of the debounce effect that has not fired yet, with the
      [filterOptions.filename] its callback captured *)
  debounceTimer : option jsstring
}.

Definition setCurrentPath (p : list jsstring) (s : State) : State :=
  {| documents := documents s; currentPath := p; sortOption := sortOption s;
     filterOptions := filterOptions s; debouncedFilter := debouncedFilter s;
     isLoading := isLoading s; searchError := searchError s;
     debounceTimer := debounceTimer s |}.

Definition setSortOption (o : SortOption) (s : State) : State :=
  {| documents := documents s; currentPath := currentPath s; sortOption := o;
     filterOptions := filterOptions s; debouncedFilter := debouncedFilter s;
     isLoading := isLoading s; searchError := searchError s;
     debounceTimer := debounceTimer s |}.

(** The debounce effect depends on [filterOptions.filename]: when the
    update changes that string, the pending timeout is cleared and a new
    one is set; otherwise the effect does not run again. *)
Definition setFilterOptions (o : FilterOptions) (s : State) : State :=
  {| documents := documents s; currentPath := currentPath s;
     sortOption := sortOption s;
     filterOptions := o; debouncedFilter := debouncedFilter s;
     isLoading := isLoading s; searchError := searchError s;
     debounceTimer :=
       if strictEq (filename o) (filename (filterOptions s))
       then debounceTimer s else Some (filename o) |}.

Definition setDebouncedFilter (f : jsstring) (s : State) : State :=
  {| documents := documents s; currentPath := currentPath s;
     sortOption := sortOption s;
     filterOptions := filterOptions s; debouncedFilter := f;
     isLoading := isLoading s; searchError := searchError s;
     debounceTimer := debounceTimer s |}.

Definition setIsLoading (b : bool) (s : State) : State :=
  {| documents := documents s; currentPath := currentPath s;
     sortOption := sortOption s;
     filterOptions := filterOptions s; debouncedFilter := debouncedFilter s;
     isLoading := b; searchError := searchError s;
     debounceTimer := debounceTimer s |}.

Definition setSearchError (e : jsstring) (s : State) : State :=
  {| documents := documents s; currentPath := currentPath s;
     sortOption := sortOption s;
     filterOptions := filterOptions s; debouncedFilter := debouncedFilter s;
     isLoading := isLoading s; searchError := e;
     debounceTimer := debounceTimer s |}.

(** The timeout of the debounce effect fires. *)
Definition debounceFire (s : State) : State :=
  match debounceTimer s with
  | Some f =>
      {| documents := documents s; currentPath := currentPath s;
         sortOption := sortOption s;
         filterOptions := filterOptions s; debouncedFilter := f;
         isLoading := isLoading s; searchError := searchError s;
         debounceTimer := None |}
  | None => s
  end.

(** The state of the first render, once the effects of the mount ran. *)
Definition initialState (data : list DocumentItem) : State :=
  {| documents := data; currentPath := [];
     sortOption := {| field := by_name; direction := asc |};
     filterOptions := {| filename := [] |}; debouncedFilter := [];
     isLoading := false; searchError := [];
     debounceTimer := Some [] |}.

Definition canGoBack (s : State) : bool :=
  (0 <? Z.of_nat (List.length (currentPath s))).

(** [currentPath.slice(0, -1)] *)
Definition slice_0_minus1 {A : Type} (l : list A) : list A := removelast l.

Section UseDocuments.
Context {host : HostStrings}.

(** The comparator handed to [sort]. *)
Definition compareItems (o : SortOption) (a b : DocumentItem) : Z :=
  match field o with
  | by_name =>
      let comparison := localeCompare (name a) (name b) in
      match direction o with asc => comparison | desc => - comparison end
  | by_date =>
      match a, b with
      | FolderItem _ _, FolderItem _ _ => 0
      | FolderItem _ _, FileItem _ _ _ => 1
      | FileItem _ _ _, FolderItem _ _ => -1
      | FileItem _ _ aDate, FileItem _ _ bDate =>
          let comparison := localeCompare aDate bDate in
          match direction o with asc => comparison | desc => - comparison end
      end
  end.

(** The loop over [currentPath]; [None] is the early [return []]. *)
Fixpoint walkPath (current : list DocumentItem) (path : list jsstring)
  : option (list DocumentItem) :=
  match path with
  | [] => Some current
  | folderName :: rest =>
      match find (fun item => isFolderItem item
                              && strictEq (name item) folderName) current with
      | Some (FolderItem _ files) => walkPath files rest
      | _ => None
      end
  end.

Definition applyFilter (debounced : jsstring) (current : list DocumentItem)
  : list DocumentItem :=
  match debounced with
  | [] => current
  | _ :: _ =>
      let searchTerm := toLowerCase debounced in
      filter (fun item => includes (toLowerCase (name item)) searchTerm)
             current
  end.

Definition currentDocuments (s : State) : list DocumentItem :=
  match walkPath (documents s) (currentPath s) with
  | None => []
  | Some current =>
      array_sort (compareItems (sortOption s))
                 (applyFilter (debouncedFilter s) current)
  end.

(** What an [async] callback still has to do after its [await], with the
    values its closure holds. *)
Inductive Continuation :=
| AfterNavigateToFolder (capturedPath : list jsstring) (folderName : jsstring)
| AfterNavigateBack (capturedPath : list jsstring).

(** [navigateToFolder], up to the [await]. *)
Definition navigateToFolder (folderName : jsstring) (s : State)
  : State * option Continuation :=
  let currentItems := currentDocuments s in
  let targetItem :=
    find (fun item => strictEq (name item) folderName) currentItems in
  match targetItem with
  | Some item =>
      if isFolderItem item
      then (setIsLoading true s,
            Some (AfterNavigateToFolder (currentPath s) folderName))
      else (s, None)
  | None => (s, None)
  end.

(** [navigateBack], up to the [await]. *)
Definition navigateBack (s : State) : State * option Continuation :=
  (setIsLoading true s, Some (AfterNavigateBack (currentPath s))).

(** The rest of the callback, run on the state of the moment the timeout
    of the [await] elapses. *)
Definition resume (k : Continuation) (s : State) : State :=
  match k with
  | AfterNavigateToFolder capturedPath folderName =>
      setIsLoading false
        (setSearchError []
           (setFilterOptions {| filename := [] |}
              (setCurrentPath (capturedPath ++ [folderName]) s)))
  | AfterNavigateBack capturedPath =>
      setIsLoading false
        (setSearchError []
           (setFilterOptions {| filename := [] |}
              (setCurrentPath (slice_0_minus1 capturedPath) s)))
  end.

(** A call awaited to its end when nothing at all happens during the
    wait, no timeout of the debounce effect either: the run of the code
    when no such timeout is pending at the call, or when the one that is
    pending outlasts the wait (a timeout less than 100ms old, during the
    200ms of [navigateBack]). *)
Definition await (r : State * option Continuation) : State :=
  match snd r with
  | Some k => resume k (fst r)
  | None => fst r
  end.

(** A call awaited to its end when the timeout of the debounce effect
    that is pending at the call fires during the wait: always so during
    the 300ms of [navigateToFolder] (the timeout was set before the call,
    for 300ms), and during the 200ms of [navigateBack] when the timeout is
    more than 100ms old.  Without a pending timeout this is [await]. *)
Definition awaitFired (r : State * option Continuation) : State :=
  match snd r with
  | Some k => resume k (debounceFire (fst r))
  | None => fst r
  end.

(** [s'] is a state in which the call can complete, nothing but the
    debounce timeout happening during the wait. *)
Definition completion (r : State * option Continuation) (s' : State) : Prop :=
  s' = await r \/ s' = awaitFired r.

Definition validateSearchInput (input : jsstring) (s : State)
  : State * jsstring :=
  let s := setSearchError [] s in
  if strictEq (trim input) [] then (s, [])
  else if 50 <? Z.of_nat (List.length input)
  then (setSearchError tooLongMessage s, [])
  else if testInvalidChars input
  then (setSearchError invalidCharsMessage s, [])
  else if testExcessiveSpaces input
  then (setSearchError excessiveSpacesMessage s, [])
  else (s, trim input).

Definition handleFilterChange (filename : jsstring) (s : State) : State :=
  let (s, validatedInput) := validateSearchInput filename s in
  if negb (strictEq validatedInput []) || strictEq filename []
  then setFilterOptions {| filename := validatedInput |} s
  else s.

Definition clearSearch (s : State) : State :=
  setSearchError [] (setFilterOptions {| filename := [] |} s).
End UseDocuments.

(** ** hooks/useKeyboardNavigation *)

(** [event.key], with the values the [switch] distinguishes. *)
Inductive Key :=
| Backspace | Escape | Key_f | Key_F | ArrowDown | ArrowUp | Enter
| Home | End_ | Key_h | Key_H
| OtherKey (k : jsstring).

Record KeyboardEvent := {
  key : Key;
  ctrlKey : bool;
  metaKey : bool;
  (** [event.target instanceof HTMLInputElement || ... HTMLTextAreaElement] *)
  targetIsTextInput : bool
}.

(** The options of the hook; an optional callback is the flag that says
    whether it was passed. *)
Record KeyboardNavigationOptions := {
  onGoBack : bool;
  onNavigateToFolder : bool;
  onClearSearch : bool;
  onFocusSearch : bool;
  opt_canGoBack : bool;
  hasSearchFilter : bool;
  opt_documents : list DocumentItem
}.

(** What a key event does besides updating the focus index. *)
Inductive Effect :=
| PreventDefault
| CallGoBack
| CallClearSearch
| CallFocusSearch
| CallNavigateToFolder (folderName : jsstring)
| FocusDocumentItem (index : Z)
| FocusHeader.

(** [documents[i]] for a number [i]. *)
Definition item_at (docs : list DocumentItem) (i : Z) : option DocumentItem :=
  if (0 <=? i) then nth_error docs (Z.to_nat i) else None.

(** [handleKeyDown]: the new value of [currentFocusIndex.current] and the
    effects, in order. *)
Definition handleKeyDown (o : KeyboardNavigationOptions) (event : KeyboardEvent)
  (currentFocusIndex : Z) : Z * list Effect :=
  let length := Z.of_nat (List.length (opt_documents o)) in
  if targetIsTextInput event then (currentFocusIndex, [])
  else
    match key event with
    | Backspace =>
        if opt_canGoBack o && onGoBack o
        then (currentFocusIndex, [PreventDefault; CallGoBack])
        else (currentFocusIndex, [])
    | Escape =>
        if hasSearchFilter o && onClearSearch o
        then (currentFocusIndex, [PreventDefault; CallClearSearch])
        else (currentFocusIndex, [])
    | Key_f | Key_F =>
        if ctrlKey event || metaKey event
        then (currentFocusIndex,
              PreventDefault
                :: if onFocusSearch o then [CallFocusSearch] else [])
        else (currentFocusIndex, [])
    | ArrowDown =>
        if 0 <? length
        then let i := Z.min (currentFocusIndex + 1) (length - 1) in
             (i, [PreventDefault; FocusDocumentItem i])
        else (currentFocusIndex, [PreventDefault])
    | ArrowUp =>
        if 0 <? length
        then let i := Z.max (currentFocusIndex - 1) 0 in
             (i, [PreventDefault; FocusDocumentItem i])
        else (currentFocusIndex, [PreventDefault])
    | Enter =>
        if (0 <=? currentFocusIndex) && (currentFocusIndex <? length)
        then match item_at (opt_documents o) currentFocusIndex with
             | Some currentItem =>
                 if isFolderItem currentItem && onNavigateToFolder o
                 then (currentFocusIndex,
                       [PreventDefault;
                        CallNavigateToFolder (name currentItem)])
                 else (currentFocusIndex, [])
             | None => (currentFocusIndex, [])
             end
        else (currentFocusIndex, [])
    | Home =>
        if 0 <? length
        then (0, [PreventDefault; FocusDocumentItem 0])
        else (currentFocusIndex, [])
    | End_ =>
        if 0 <? length
        then (length - 1, [PreventDefault; FocusDocumentItem (length - 1)])
        else (currentFocusIndex, [])
    | Key_h | Key_H =>
        if ctrlKey event || metaKey event
        then (currentFocusIndex, [PreventDefault; FocusHeader])
        else (currentFocusIndex, [])
    | OtherKey _ => (currentFocusIndex, [])
    end.

(** The hook between two events: the options of the last render and the
    ref [currentFocusIndex]. *)
Record Coordinator := {
  options : KeyboardNavigationOptions;
  currentFocusIndex : Z
}.

Definition mount (o : KeyboardNavigationOptions) : Coordinator :=
  {| options := o; currentFocusIndex := -1 |}.

(** What can happen to a mounted hook.  A key event runs [handleKeyDown].
    A render brings new options: when they carry another [documents]
    sequence the effect resets the index; when the sequence is the same the
    array may still be a new one (the effect compares identities), so the
    index is either kept or reset. *)
Inductive step : Coordinator -> Coordinator -> Prop :=
| step_keydown c event :
    step c {| options := options c;
              currentFocusIndex :=
                fst (handleKeyDown (options c) event (currentFocusIndex c)) |}
| step_render_documents_changed c o :
    step c {| options := o; currentFocusIndex := -1 |}
| step_render_documents_same c o :
    opt_documents o = opt_documents (options c) ->
    step c {| options := o; currentFocusIndex := currentFocusIndex c |}.

Inductive reachable : Coordinator -> Prop :=
| reachable_mount o : reachable (mount o)
| reachable_step c c' : reachable c -> step c c' -> reachable c'.

(** ** The engine as a transition system

    A state of the hook together with the [async] callbacks that are
    waiting at their [await].  Nothing orders two pending callbacks: each
    may resume at any time. *)

Record Engine := {
  state : State;
  pending : list Continuation
}.

Definition spawn (r : State * option Continuation) (ks : list Continuation)
  : Engine :=
  {| state := fst r;
     pending := match snd r with Some k => ks ++ [k] | None => ks end |}.

Section EngineSteps.
Context {host : HostStrings}.

Inductive engine_step : Engine -> Engine -> Prop :=
| es_setSortOption e o :
    engine_step e {| state := setSortOption o (state e);
                     pending := pending e |}
| es_setFilterOptions e o :
    engine_step e {| state := setFilterOptions o (state e);
                     pending := pending e |}
| es_handleFilterChange e input :
    engine_step e {| state := handleFilterChange input (state e);
                     pending := pending e |}
| es_clearSearch e :
    engine_step e {| state := clearSearch (state e); pending := pending e |}
| es_navigateToFolder e folderName :
    engine_step e (spawn (navigateToFolder folderName (state e)) (pending e))
| es_navigateBack e :
    engine_step e (spawn (navigateBack (state e)) (pending e))
| es_resume e ks1 k ks2 :
    pending e = ks1 ++ k :: ks2 ->
    engine_step e {| state := resume k (state e); pending := ks1 ++ ks2 |}
| es_debounceFire e :
    engine_step e {| state := debounceFire (state e); pending := pending e |}.

Inductive engine_reachable (data : list DocumentItem) : Engine -> Prop :=
| er_init :
    engine_reachable data {| state := initialState data; pending := [] |}
| er_step e e' :
    engine_reachable data e -> engine_step e e' -> engine_reachable data e'.
End EngineSteps.

(** The debounce effect and the filter agree: the pending timeout, if any,
    carries the current filename, and without a pending timeout the
    debounced filter is the current filename. *)
Definition debounce_consistent (s : State) : Prop :=
  match debounceTimer s with
  | Some f => f = filename (filterOptions s)
  | None => debouncedFilter s = filename (filterOptions s)
  end.

(** ** Vocabulary of the properties *)

(** The input is made of white space only. *)
Definition whitespaceOnly (input : jsstring) : Prop :=
  Forall (fun c => isWhiteSpace c = true) input.

(** Some character of the input is one of the eight invalid ones. *)
Definition hasInvalidChar (input : jsstring) : Prop :=
  exists c, In c input /\ In c invalidChars.

(** Three white-space characters in a row somewhere in the input. *)
Definition hasWhitespaceRun (input : jsstring) : Prop :=
  exists pre a b c post,
    input = pre ++ a :: b :: c :: post
    /\ isWhiteSpace a = true /\ isWhiteSpace b = true /\ isWhiteSpace c = true.

(** [item] is the first entry of [view] whose name is [n]. *)
Definition first_named (n : jsstring) (view : list DocumentItem)
  (item : DocumentItem) : Prop :=
  exists pre post,
    view = pre ++ item :: post
    /\ name item = n
    /\ Forall (fun x => name x <> n) pre.

(** Two files in the order of their dates, for a direction. *)
Definition filesInDateOrder {host : HostStrings} (d : SortDirection)
  (a b : DocumentItem) : Prop :=
  match a, b with
  | FileItem _ _ aDate, FileItem _ _ bDate =>
      match d with
      | asc => localeCompare aDate bDate <= 0
      | desc => localeCompare bDate aDate <= 0
      end
  | _, _ => False
  end.

(** [localeCompare] is a consistent comparator: swapping the arguments
    flips the sign, and the order is transitive. *)
Definition consistent_collation (host : HostStrings) : Prop :=
  (forall a b, Z.sgn (localeCompare b a) = - Z.sgn (localeCompare a b))
  /\ (forall a b c,
        localeCompare a b <= 0 -> localeCompare b c <= 0 ->
        localeCompare a c <= 0).

(** The entries of the list whose names compare equal are the same
    entry. *)
Definition distinct_names {host : HostStrings} (l : list DocumentItem) : Prop :=
  forall x y, In x l -> In y l ->
              localeCompare (name x) (name y) = 0 -> x = y.

(** [documents.length] *)
Definition documentsLength (o : KeyboardNavigationOptions) : Z :=
  Z.of_nat (List.length (opt_documents o)).

(** The focus index points into the sequence or is -1. *)
Definition focus_in_bounds (c : Coordinator) : Prop :=
  -1 <= currentFocusIndex c <= documentsLength (options c) - 1.

(** ** A host to compute with

    Comparison by code units and lower-casing of the ASCII letters: a
    consistent comparator and a case mapping on which the definitions can
    be evaluated.  On identical strings every collation answers 0, as this
    one does. *)

Fixpoint codeUnitCompare (a b : jsstring) : Z :=
  match a, b with
  | [], [] => 0
  | [], _ :: _ => -1
  | _ :: _, [] => 1
  | x :: a', y :: b' =>
      match N.compare x y with
      | Lt => -1
      | Gt => 1
      | Eq => codeUnitCompare a' b'
      end
  end.

Definition asciiLowerCase (s : jsstring) : jsstring :=
  map (fun c => if N.leb 65 c && N.leb c 90 then (c + 32)%N else c) s.

Definition simpleHost : HostStrings :=
  {| localeCompare := codeUnitCompare; toLowerCase := asciiLowerCase |}.

(** A small tree in the shape of the application's data: folders of files
    at the root, next to files. *)
Definition expensesFolder : DocumentItem :=
  FolderItem (js "Expenses")
    [ FileItem doc (js "Expenses claim form") (js "2017-05-02");
      FileItem doc (js "Fuel allowances") (js "2017-05-03") ].

Definition sampleTree : list DocumentItem :=
  [ FileItem pdf (js "Employee Handbook") (js "2017-01-06");
    FileItem pdf (js "Public Holiday policy") (js "2016-12-06");
    expensesFolder;
    FileItem csv (js "Cost centres") (js "2016-08-12");
    FolderItem (js "Misc")
      [ FileItem doc (js "Christmas party") (js "2017-12-01");
        FileItem mov (js "Welcome to the company!") (js "2015-04-24") ] ].

Definition sampleState : State := initialState sampleTree.

(** The sample with [filter] typed into the search box and the debounce
    elapsed. *)
Definition filteredState (filter : jsstring) : State :=
  debounceFire (setFilterOptions {| filename := filter |} sampleState).

(** Two files of the same name. *)
Definition twoReports : list DocumentItem :=
  [ FileItem pdf (js "Report") (js "2020-01-01");
    FileItem doc (js "Report") (js "2021-01-01") ].

(** The options [App] hands to the keyboard hook for the sample. *)
Definition sampleOptions : KeyboardNavigationOptions :=
  {| onGoBack := true; onNavigateToFolder := true; onClearSearch := true;
     onFocusSearch := true;
     opt_canGoBack := canGoBack sampleState;
     hasSearchFilter := false;
     opt_documents := @currentDocuments simpleHost sampleState |}.

Definition keyDown (k : Key) : KeyboardEvent :=
  {| key := k; ctrlKey := false; metaKey := false;
     targetIsTextInput := false |}.

(** ** The rest of useDocuments *)

Inductive EmptyStateType := search_state | empty_folder_state | root_state.

Record EmptyStateInfo := {
  es_type : EmptyStateType;
  es_message : jsstring;
  es_suggestion : jsstring;
  es_searchTerm : option jsstring
}.

(** [emptyStateInfo]; the message of the search case is the template
    literal with the debounced filter between double quotes (code unit
    34). *)
Definition emptyStateInfo (s : State) : EmptyStateInfo :=
  match debouncedFilter s with
  | _ :: _ =>
      {| es_type := search_state;
         es_message :=
           js "No documents match " ++ [34%N] ++ debouncedFilter s ++ [34%N];
         es_suggestion :=
           js "Try adjusting your search terms or browse all documents";
         es_searchTerm := Some (debouncedFilter s) |}
  | [] =>
      if 0 <? Z.of_nat (List.length (currentPath s))
      then {| es_type := empty_folder_state;
              es_message := js "This folder is empty";
              es_suggestion :=
                js ("Navigate to a different folder or go back to browse "
                    ++ "other documents");
              es_searchTerm := None |}
      else {| es_type := root_state;
              es_message := js "No documents found";
              es_suggestion :=
                js "Check if documents have been added to the system";
              es_searchTerm := None |}
  end.

(** The path a pending callback writes when it resumes. *)
Definition target (k : Continuation) : list jsstring :=
  match k with
  | AfterNavigateToFolder capturedPath folderName =>
      capturedPath ++ [folderName]
  | AfterNavigateBack capturedPath => slice_0_minus1 capturedPath
  end.

(** The path leads to a folder of the tree. *)
Definition resolves (data : list DocumentItem) (path : list jsstring) : Prop :=
  walkPath data path <> None.

(** A run of keystrokes in the search box, oldest first. *)
Definition typeInputs (inputs : list jsstring) (s : State) : State :=
  fold_left (fun st input => handleFilterChange input st) inputs s.

(** What validation lets through: at most 50 code units, none of the
    invalid characters, no run of three white-space characters, no white
    space at either end. *)
Definition validFilter (f : jsstring) : Prop :=
  (List.length f <= 50)%nat
  /\ ~ hasInvalidChar f
  /\ ~ hasWhitespaceRun f
  /\ trim f = f.

(** ** components/DocumentControls: the handlers *)

Definition handleSortFieldChange (sortOption : SortOption) (f : SortField)
  : SortOption :=
  {| field := f; direction := direction sortOption |}.

Definition handleSortDirectionChange (sortOption : SortOption)
  (d : SortDirection) : SortOption :=
  {| field := field sortOption; direction := d |}.

(** The click on the direction button. *)
Definition sortDirectionClick (sortOption : SortOption) : SortOption :=
  handleSortDirectionChange sortOption
    (match direction sortOption with asc => desc | desc => asc end).

(** Escape in the search box: [onFilterInputChange('')] when a filter is
    stored.  [onFilterInputChange] is [handleFilterChange]. *)
Definition searchBoxEscape (s : State) : State :=
  match filename (filterOptions s) with
  | _ :: _ => handleFilterChange [] s
  | [] => s
  end.

(** ** components/DocumentList and DocumentItem *)

Definition VIRTUAL_SCROLLING_THRESHOLD : Z := 50.

(** The [height] prop of the virtual list. *)
Definition listHeight (length : Z) : Z :=
  Z.min 600 (Z.max 200 (length * 20)).

(** What [DocumentList] renders: the empty state, with or without the
    clear-search button; the virtual list with its props; or one row per
    document with its index. *)
Inductive Rendering :=
| EmptyState (info : EmptyStateInfo) (clearSearchButton : bool)
| VirtualList (height itemCount itemSize overscanCount : Z)
              (itemData : list DocumentItem)
| RegularList (rows : list (DocumentItem * Z)).

(** [documents.map((item, index) => ...)] from index [i] on. *)
Fixpoint indexedFrom (i : Z) (l : list DocumentItem)
  : list (DocumentItem * Z) :=
  match l with
  | [] => []
  | x :: l' => (x, i) :: indexedFrom (i + 1) l'
  end.

Definition renderDocumentList (docs : list DocumentItem)
  (info : EmptyStateInfo) (hasFilter : bool) : Rendering :=
  let length := Z.of_nat (List.length docs) in
  if length =? 0 then EmptyState info hasFilter
  else if VIRTUAL_SCROLLING_THRESHOLD <=? length
  then VirtualList (listHeight length) length 80 5 docs
  else RegularList (indexedFrom 0 docs).

(** [event.key] as the [switch] of [DocumentItem] sees it. *)
Inductive ItemKey :=
| ItemEnter | ItemSpace | ItemArrowRight | ItemArrowLeft | ItemOtherKey.

Inductive ItemEffect :=
| ItemPreventDefault
| OnFolderClick (folderName : jsstring).

Definition itemHandleClick (item : DocumentItem) : list ItemEffect :=
  if isFolderItem item then [OnFolderClick (name item)] else [].

Definition itemHandleKeyDown (item : DocumentItem) (k : ItemKey)
  : list ItemEffect :=
  match k with
  | ItemEnter | ItemSpace | ItemArrowRight =>
      if isFolderItem item
      then [ItemPreventDefault; OnFolderClick (name item)]
      else []
  | ItemArrowLeft => [ItemPreventDefault]
  | ItemOtherKey => []
  end.

(** ** App: the wiring of the two hooks *)

(** The effects that call one of the callbacks passed to the hook. *)
Definition isCollaboratorCall (eff : Effect) : bool :=
  match eff with
  | CallGoBack | CallClearSearch | CallFocusSearch
  | CallNavigateToFolder _ => true
  | PreventDefault | FocusDocumentItem _ | FocusHeader => false
  end.

Section AppWiring.
Context {host : HostStrings}.

(** The options [App] passes to [useKeyboardNavigation] in a render. *)
Definition appOptions (s : State) : KeyboardNavigationOptions :=
  {| onGoBack := true; onNavigateToFolder := true; onClearSearch := true;
     onFocusSearch := true;
     opt_canGoBack := canGoBack s;
     hasSearchFilter := negb (strictEq (filename (filterOptions s)) []);
     opt_documents := currentDocuments s |}.

(** What [DocumentList] gets in a render. *)
Definition appList (s : State) : Rendering :=
  renderDocumentList (currentDocuments s) (emptyStateInfo s)
    (negb (strictEq (filename (filterOptions s)) [])).

(** An effect of the key handler, carried out on the engine: the three
    collaborators are [navigateBack], [clearSearch] and
    [navigateToFolder]; the others touch the page only. *)
Definition performEffect (e : Engine) (eff : Effect) : Engine :=
  match eff with
  | CallGoBack => spawn (navigateBack (state e)) (pending e)
  | CallClearSearch =>
      {| state := clearSearch (state e); pending := pending e |}
  | CallNavigateToFolder folderName =>
      spawn (navigateToFolder folderName (state e)) (pending e)
  | _ => e
  end.

(** An effect of a row of the list, carried out on the engine:
    [onFolderClick] is [navigateToFolder]. *)
Definition performItemEffect (e : Engine) (eff : ItemEffect) : Engine :=
  match eff with
  | OnFolderClick folderName =>
      spawn (navigateToFolder folderName (state e)) (pending e)
  | ItemPreventDefault => e
  end.

(** The application between two events: the engine and the focus index
    of the keyboard hook. *)
Record AppState := {
  engine : Engine;
  focusIndex : Z
}.

(** A key event in the application that lands on an element without a
    key handler of its own: the listener of the hook alone reacts.  The
    handler and the callbacks it calls are those of the last render. *)
Definition appKeyDown (event : KeyboardEvent) (a : AppState) : AppState :=
  let r := handleKeyDown (appOptions (state (engine a))) event (focusIndex a) in
  {| engine := fold_left performEffect (snd r) (engine a);
     focusIndex := fst r |}.

(** Where a key event lands, a text input apart: on an element with no
    key handler of its own (the page, the header), or on a row of the
    list, whose [onKeyDown] then runs before the listener of the hook,
    the event bubbling on to the document. *)
Inductive EventTarget :=
| NoHandlerTarget
| RowTarget (item : DocumentItem).

(** [event.key] as the row's [switch] reads it. *)
Definition itemKeyOf (k : Key) : ItemKey :=
  match k with
  | Enter => ItemEnter
  | OtherKey c =>
      if strictEq c (js " ") then ItemSpace
      else if strictEq c (js "ArrowRight") then ItemArrowRight
      else if strictEq c (js "ArrowLeft") then ItemArrowLeft
      else ItemOtherKey
  | _ => ItemOtherKey
  end.

(** A key event in the application with its target.  All the callbacks
    are those of the last render; before their [await] they only set the
    loading flag, which none of them reads, so carrying them out one
    after the other on the engine gives what the closures give. *)
Definition appKeyDownAt (target : EventTarget) (event : KeyboardEvent)
  (a : AppState) : AppState :=
  let afterRow :=
    match target with
    | RowTarget item =>
        fold_left performItemEffect
          (itemHandleKeyDown item (itemKeyOf (key event))) (engine a)
    | NoHandlerTarget => engine a
    end in
  let r := handleKeyDown (appOptions (state (engine a))) event (focusIndex a) in
  {| engine := fold_left performEffect (snd r) afterRow;
     focusIndex := fst r |}.

(** A step of the application: a key event, or a step of the engine (a
    click or a key on a row, typing, a timeout) after which the effect of
    the keyboard hook resets the index when the memoised [documents] is a
    new array.  The array is the same one only if the view is the same, so
    the index is kept only then. *)
Inductive app_step : AppState -> AppState -> Prop :=
| app_keydown a event : app_step a (appKeyDown event a)
| app_engine_reset a e' :
    engine_step (engine a) e' ->
    app_step a {| engine := e'; focusIndex := -1 |}
| app_engine_keep a e' :
    engine_step (engine a) e' ->
    currentDocuments (state e') = currentDocuments (state (engine a)) ->
    app_step a {| engine := e'; focusIndex := focusIndex a |}.

Inductive app_reachable (data : list DocumentItem) : AppState -> Prop :=
| ar_init :
    app_reachable data
      {| engine := {| state := initialState data; pending := [] |};
         focusIndex := -1 |}
| ar_step a a' :
    app_reachable data a -> app_step a a' -> app_reachable data a'.
End AppWiring.

(** [setFocusIndex], returned by the hook: the ref takes the number it is
    given (an integer here). *)
Definition setFocusIndex (index : Z) (c : Coordinator) : Coordinator :=
  {| options := options c; currentFocusIndex := index |}.

(** A key event on a mounted hook. *)
Definition keyEvent (event : KeyboardEvent) (c : Coordinator) : Coordinator :=
  {| options := options c;
     currentFocusIndex :=
       fst (handleKeyDown (options c) event (currentFocusIndex c)) |}.

(** Pressing the same key [n] times. *)
Definition press (o : KeyboardNavigationOptions) (k : Key) (n : nat) (i : Z)
  : Z :=
  Nat.iter n
    (fun j => fst (handleKeyDown o
                     {| key := k; ctrlKey := false; metaKey := false;
                        targetIsTextInput := false |} j)) i.

(** * Properties *)

(** ** Strings *)

Lemma strictEq_spec (a b : jsstring) : strictEq a b = true <-> a = b.
Proof.
  revert b; induction a as [|x a IH]; intros [|y b]; simpl;
    try (split; [discriminate | congruence]); [tauto|].
  rewrite andb_true_iff, N.eqb_eq, IH.
  split; [intros [-> ->]; reflexivity | intros H; injection H; auto].
Qed.

Lemma strictEq_refl (a : jsstring) : strictEq a a = true.
Proof. apply strictEq_spec; reflexivity. Qed.

Lemma strictEq_nil_r (a : jsstring) : strictEq a [] = true <-> a = [].
Proof. apply strictEq_spec. Qed.

Lemma trimStart_nil (s : jsstring) : trimStart s = [] <-> whitespaceOnly s.
Proof.
  unfold whitespaceOnly; induction s as [|c s IH]; simpl.
  - split; auto.
  - destruct (isWhiteSpace c) eqn:Hc.
    + rewrite IH; split; [intros H; constructor; assumption|].
      intros H; inversion H; assumption.
    + split; [discriminate|].
      intros H; inversion H; congruence.
Qed.

(** What is left after [trimStart] is empty or starts with a character
    that is not white space. *)
Lemma trimStart_head (s : jsstring) :
  match trimStart s with
  | [] => True
  | c :: _ => isWhiteSpace c = false
  end.
Proof.
  induction s as [|c s IH]; simpl; [exact I|].
  destruct (isWhiteSpace c) eqn:Hc; [exact IH | exact Hc].
Qed.

Lemma whitespaceOnly_rev (s : jsstring) :
  whitespaceOnly (rev s) <-> whitespaceOnly s.
Proof.
  unfold whitespaceOnly; rewrite !Forall_forall.
  split; intros H c Hc; apply H; [apply in_rev in Hc | apply <- in_rev];
    assumption.
Qed.

(** [input.trim() === ''] says that the input is white space only. *)
Lemma trim_nil (s : jsstring) : trim s = [] <-> whitespaceOnly s.
Proof.
  unfold trim, trimEnd; split.
  - intros H.
    assert (H1 : trimStart (rev (trimStart s)) = []).
    { destruct (trimStart (rev (trimStart s))) as [|c r]; [reflexivity|].
      simpl in H; destruct (rev r); discriminate. }
    apply trimStart_nil in H1; apply -> whitespaceOnly_rev in H1.
    apply trimStart_nil.
    pose proof (trimStart_head s) as Hh.
    destruct (trimStart s) as [|c r]; [reflexivity|].
    apply Forall_inv in H1; simpl in H1; congruence.
  - intros H; apply trimStart_nil in H; rewrite H; reflexivity.
Qed.

Lemma trimStart_decompose (s : jsstring) :
  exists pre, s = pre ++ trimStart s /\ whitespaceOnly pre.
Proof.
  induction s as [|c s (pre & Hs & Hpre)]; simpl.
  - exists []; split; [reflexivity | constructor].
  - destruct (isWhiteSpace c) eqn:Hc.
    + exists (c :: pre); split; [simpl; congruence | constructor; assumption].
    + exists []; split; [reflexivity | constructor].
Qed.

(** [trim] removes a prefix and a suffix of white space, and what stays
    neither starts nor ends with white space. *)
Lemma trim_decompose (s : jsstring) :
  exists pre post,
    s = pre ++ trim s ++ post
    /\ whitespaceOnly pre /\ whitespaceOnly post
    /\ match trim s with
       | [] => True
       | c :: _ => isWhiteSpace c = false
       end
    /\ match rev (trim s) with
       | [] => True
       | c :: _ => isWhiteSpace c = false
       end.
Proof.
  destruct (trimStart_decompose s) as (pre & Hs & Hpre).
  destruct (trimStart_decompose (rev (trimStart s))) as (post & Hr & Hpost).
  exists pre, (rev post); unfold trim, trimEnd.
  split; [|split; [assumption|split; [apply whitespaceOnly_rev; assumption|]]].
  - rewrite <- rev_app_distr, <- Hr, rev_involutive; exact Hs.
  - split.
    + pose proof (trimStart_head s) as Hh.
      pose proof (trimStart_head (rev (trimStart s))) as Hh2.
      destruct (rev (trimStart (rev (trimStart s)))) as [|c r] eqn:E;
        [exact I|].
      destruct (trimStart s) as [|c0 r0] eqn:E0; [discriminate E|].
      assert (Hc : c = c0).
      { assert (rev (rev (c0 :: r0)) = rev (post ++ trimStart (rev (c0 :: r0))))
          by (f_equal; exact Hr).
        rewrite rev_involutive, rev_app_distr, E in H.
        simpl in H; injection H; auto. }
      subst c0; exact Hh.
    + rewrite rev_involutive; apply trimStart_head.
Qed.

Lemma testInvalidChars_spec (input : jsstring) :
  testInvalidChars input = true <-> hasInvalidChar input.
Proof.
  unfold testInvalidChars, hasInvalidChar; rewrite existsb_exists.
  split; intros (c & Hin & Hc); exists c; split; try assumption.
  - apply existsb_exists in Hc as (d & Hd & Heq).
    apply N.eqb_eq in Heq; subst; assumption.
  - apply existsb_exists; exists c; split; [assumption | apply N.eqb_refl].
Qed.

Lemma testExcessiveSpaces_spec (input : jsstring) :
  testExcessiveSpaces input = true <-> hasWhitespaceRun input.
Proof.
  unfold hasWhitespaceRun; split.
  - induction input as [|a l IH]; [discriminate|].
    destruct l as [|b [|c t]]; try discriminate.
    cbn [testExcessiveSpaces]; rewrite orb_true_iff, !andb_true_iff.
    intros [[[Ha Hb] Hc] | H].
    + exists [], a, b, c, t; auto.
    + destruct (IH H) as (pre & x & y & z & post & E & Hx & Hy & Hz).
      exists (a :: pre), x, y, z, post; simpl; rewrite E; auto.
  - intros (pre & a & b & c & post & -> & Ha & Hb & Hc).
    induction pre as [|x pre IH].
    + simpl; rewrite Ha, Hb, Hc; reflexivity.
    + destruct pre as [|y [|z pre]];
        cbn [app testExcessiveSpaces] in *; rewrite IH; apply orb_true_r.
Qed.

Lemma invalid_not_whitespace (c : N) :
  In c invalidChars -> isWhiteSpace c = false.
Proof.
  unfold invalidChars; simpl.
  intros H; repeat (destruct H as [<- | H]; [reflexivity|]); contradiction.
Qed.

Lemma hasInvalidChar_not_whitespaceOnly (input : jsstring) :
  hasInvalidChar input -> ~ whitespaceOnly input.
Proof.
  intros (c & Hin & Hc) Hws.
  unfold whitespaceOnly in Hws; rewrite Forall_forall in Hws.
  apply Hws in Hin; apply invalid_not_whitespace in Hc; congruence.
Qed.

Lemma trim_empty_test (input : jsstring) :
  strictEq (trim input) [] = true <-> whitespaceOnly input.
Proof. rewrite strictEq_nil_r; apply trim_nil. Qed.

Lemma length_test (input : jsstring) :
  (50 <? Z.of_nat (List.length input)) = true <-> (50 < List.length input)%nat.
Proof. rewrite Z.ltb_lt; lia. Qed.

Lemma message_nonempty :
  tooLongMessage <> [] /\ invalidCharsMessage <> []
  /\ excessiveSpacesMessage <> [].
Proof. repeat split; discriminate. Qed.

(** ** Validation of the search input *)

(** The outcome of [validateSearchInput], one case per rule, with the
    tests still as the booleans of the code. *)
Lemma validateSearchInput_cases (input : jsstring) (s : State) :
  validateSearchInput input s =
    if strictEq (trim input) [] then (setSearchError [] s, [])
    else if 50 <? Z.of_nat (List.length input)
    then (setSearchError tooLongMessage s, [])
    else if testInvalidChars input
    then (setSearchError invalidCharsMessage s, [])
    else if testExcessiveSpaces input
    then (setSearchError excessiveSpacesMessage s, [])
    else (setSearchError [] s, trim input).
Proof.
  unfold validateSearchInput.
  repeat match goal with |- context [if ?b then _ else _] => destruct b end;
    reflexivity.
Qed.

(** A keystroke that validation turns into the empty string is dropped
    unless the raw text is the empty string itself. *)
Lemma handleFilterChange_dropped (input : jsstring) (s s' : State) :
  validateSearchInput input s = (s', []) -> input <> [] ->
  handleFilterChange input s = s'.
Proof.
  intros Hv Hne; unfold handleFilterChange; rewrite Hv.
  destruct (strictEq input []) eqn:E; [|reflexivity].
  apply strictEq_nil_r in E; contradiction.
Qed.

Lemma not_whitespaceOnly_nonempty (input : jsstring) :
  ~ whitespaceOnly input -> input <> [].
Proof. intros H ->; apply H; constructor. Qed.

(** White space only, and not empty: validation accepts the input, and the
    handler leaves the stored filter as it was. *)
Lemma handleFilterChange_whitespaceOnly (input : jsstring) (s : State) :
  input <> [] -> whitespaceOnly input ->
  handleFilterChange input s = setSearchError [] s.
Proof.
  intros Hne Hws; apply handleFilterChange_dropped; [|assumption].
  rewrite validateSearchInput_cases.
  apply trim_empty_test in Hws; rewrite Hws; reflexivity.
Qed.

(** C6.  [validateSearchInput] applies its rules in order and the first
    that matches decides: input of white space only is valid (no error,
    empty result); otherwise more than 50 code units gives the length
    message; otherwise one of the eight invalid characters gives the
    invalid-characters message; otherwise three white-space characters in a
    row give the consecutive-spaces message; otherwise the input is valid
    and [handleFilterChange] stores it trimmed: the stored filter is then
    the trimmed input, which is not empty, and no error is shown.  An
    input that is too long and has an invalid character gets the length
    message, and a rejected input leaves the stored filter as it was. *)
Theorem validateSearchInput_precedence (input : jsstring) (s : State) :
  (whitespaceOnly input ->
     validateSearchInput input s = (setSearchError [] s, []))
  /\ (~ whitespaceOnly input -> (50 < List.length input)%nat ->
      validateSearchInput input s = (setSearchError tooLongMessage s, [])
      /\ handleFilterChange input s = setSearchError tooLongMessage s)
  /\ (~ whitespaceOnly input -> (List.length input <= 50)%nat ->
      hasInvalidChar input ->
      validateSearchInput input s = (setSearchError invalidCharsMessage s, [])
      /\ handleFilterChange input s = setSearchError invalidCharsMessage s)
  /\ (~ whitespaceOnly input -> (List.length input <= 50)%nat ->
      ~ hasInvalidChar input -> hasWhitespaceRun input ->
      validateSearchInput input s
        = (setSearchError excessiveSpacesMessage s, [])
      /\ handleFilterChange input s = setSearchError excessiveSpacesMessage s)
  /\ (~ whitespaceOnly input -> (List.length input <= 50)%nat ->
      ~ hasInvalidChar input -> ~ hasWhitespaceRun input ->
      validateSearchInput input s = (setSearchError [] s, trim input)
      /\ handleFilterChange input s
         = setFilterOptions {| filename := trim input |} (setSearchError [] s)
      /\ filename (filterOptions (handleFilterChange input s)) = trim input
      /\ filterOptions (handleFilterChange input s)
         = {| filename := trim input |}
      /\ searchError (handleFilterChange input s) = []
      /\ trim input <> [])
  /\ ((50 < List.length input)%nat -> hasInvalidChar input ->
      searchError (handleFilterChange input s) = tooLongMessage)
  /\ (searchError (handleFilterChange input s) <> [] ->
      filterOptions (handleFilterChange input s) = filterOptions s).
Proof.
  pose proof (validateSearchInput_cases input s) as Hv.
  pose proof (trim_empty_test input) as Hws.
  pose proof (length_test input) as Hlen.
  pose proof (testInvalidChars_spec input) as Hinv.
  pose proof (testExcessiveSpaces_spec input) as Hrun.
  destruct (strictEq (trim input) []) eqn:E1.
  { (* white space only *)
    assert (W : whitespaceOnly input) by (apply Hws; reflexivity).
    repeat split; try (intros; contradiction); try (intros; assumption).
    - intros _ Hi; exfalso.
      exact (hasInvalidChar_not_whitespaceOnly _ Hi W).
    - intros Herr; exfalso; apply Herr.
      unfold handleFilterChange; rewrite Hv.
      destruct (negb (strictEq [] []) || strictEq input []); reflexivity. }
  assert (NW : ~ whitespaceOnly input)
    by (intros W; apply Hws in W; discriminate).
  pose proof (not_whitespaceOnly_nonempty _ NW) as Hne.
  destruct (50 <? Z.of_nat (List.length input)) eqn:E2.
  { assert (L : (50 < List.length input)%nat) by (apply Hlen; reflexivity).
    pose proof (handleFilterChange_dropped _ _ _ Hv Hne) as Hh.
    repeat split; try (intros; contradiction); try (intros; lia);
      try (intros; assumption); rewrite Hh; reflexivity. }
  assert (NL : (List.length input <= 50)%nat).
  { destruct (Nat.le_gt_cases (List.length input) 50) as [H|H]; [exact H|].
    apply Hlen in H; discriminate. }
  destruct (testInvalidChars input) eqn:E3.
  { assert (I : hasInvalidChar input) by (apply Hinv; reflexivity).
    pose proof (handleFilterChange_dropped _ _ _ Hv Hne) as Hh.
    repeat split; try (intros; contradiction); try (intros; lia);
      try (intros; assumption); rewrite Hh; reflexivity. }
  assert (NI : ~ hasInvalidChar input)
    by (intros I; apply Hinv in I; discriminate).
  destruct (testExcessiveSpaces input) eqn:E4.
  { assert (R : hasWhitespaceRun input) by (apply Hrun; reflexivity).
    pose proof (handleFilterChange_dropped _ _ _ Hv Hne) as Hh.
    repeat split; try (intros; contradiction); try (intros; lia);
      try (intros; assumption); rewrite Hh; reflexivity. }
  assert (NR : ~ hasWhitespaceRun input)
    by (intros R; apply Hrun in R; discriminate).
  assert (Hh : handleFilterChange input s
               = setFilterOptions {| filename := trim input |}
                                  (setSearchError [] s)).
  { unfold handleFilterChange; rewrite Hv, E1; reflexivity. }
  repeat split; try (intros; contradiction); try (intros; lia);
    try (intros; assumption); try (rewrite Hh; reflexivity).
  - intros Hnil; rewrite Hnil in E1; discriminate E1.
  - intros Herr; exfalso; apply Herr; rewrite Hh; reflexivity.
Qed.

(** ** Array.prototype.sort *)

Section SortFacts.
Context {A : Type}.
Variable compareFn : A -> A -> Z.

Lemma sort_insert_perm (x : A) (l : list A) :
  Permutation (x :: l) (sort_insert compareFn x l).
Proof.
  induction l as [|y l IH]; simpl; [reflexivity|].
  destruct (compareFn x y <=? 0); [reflexivity|].
  rewrite perm_swap; apply perm_skip; exact IH.
Qed.

Lemma array_sort_perm (l : list A) : Permutation l (array_sort compareFn l).
Proof.
  induction l as [|x l IH]; simpl; [reflexivity|].
  rewrite <- sort_insert_perm; apply perm_skip; exact IH.
Qed.

Lemma array_sort_Forall (P : A -> Prop) (l : list A) :
  Forall P l -> Forall P (array_sort compareFn l).
Proof.
  intros H; rewrite Forall_forall in *; intros x Hx; apply H.
  eapply Permutation_in; [symmetry; apply array_sort_perm | exact Hx].
Qed.

Lemma array_sort_length (l : list A) :
  List.length (array_sort compareFn l) = List.length l.
Proof. symmetry; apply Permutation_length, array_sort_perm. Qed.

(** The comparator is consistent: of two elements one may stand before
    the other, and standing before is transitive. *)
Hypothesis compareFn_total :
  forall x y, 0 < compareFn x y -> compareFn y x <= 0.
Hypothesis compareFn_trans :
  forall x y z, compareFn x y <= 0 -> compareFn y z <= 0 -> compareFn x z <= 0.

Lemma sort_insert_sorted (x : A) (l : list A) :
  StronglySorted (sorts_before compareFn) l ->
  StronglySorted (sorts_before compareFn) (sort_insert compareFn x l).
Proof.
  induction 1 as [|y l Hl IH Hy]; simpl.
  - repeat constructor.
  - destruct (compareFn x y <=? 0) eqn:E.
    + apply Z.leb_le in E.
      constructor; [constructor; assumption|].
      constructor; [exact E|].
      eapply Forall_impl; [|exact Hy].
      intros z Hz; exact (compareFn_trans _ _ _ E Hz).
    + apply Z.leb_gt in E.
      constructor; [exact IH|].
      rewrite Forall_forall in *; intros z Hz.
      apply (Permutation_in _ (Permutation_sym (sort_insert_perm x l))) in Hz.
      destruct Hz as [<- | Hz]; [apply compareFn_total; exact E | auto].
Qed.

Lemma array_sort_sorted (l : list A) :
  StronglySorted (sorts_before compareFn) (array_sort compareFn l).
Proof.
  induction l as [|x l IH]; simpl; [constructor | apply sort_insert_sorted, IH].
Qed.
End SortFacts.

Section SortedLists.
Context {A : Type}.

Lemma StronglySorted_app (R : A -> A -> Prop) (l1 l2 : list A) :
  StronglySorted R l1 -> StronglySorted R l2 ->
  (forall x y, In x l1 -> In y l2 -> R x y) ->
  StronglySorted R (l1 ++ l2).
Proof.
  induction 1 as [|x l1 H1 IH Hx]; intros H2 H12; simpl; [exact H2|].
  constructor.
  - apply IH; [exact H2 | intros; apply H12; simpl; auto].
  - apply Forall_app; split; [exact Hx|].
    rewrite Forall_forall; intros y Hy; apply H12; simpl; auto.
Qed.

Lemma StronglySorted_rev (R : A -> A -> Prop) (l : list A) :
  StronglySorted R l -> StronglySorted (fun x y => R y x) (rev l).
Proof.
  induction 1 as [|x l Hl IH Hx]; simpl; [constructor|].
  apply StronglySorted_app; [exact IH | repeat constructor |].
  intros y z Hy [<- | []].
  rewrite Forall_forall in Hx; apply Hx, in_rev; exact Hy.
Qed.

(** Two sorted arrangements of the same elements coincide when no two
    different elements may stand before each other. *)
Lemma StronglySorted_unique (R : A -> A -> Prop) (l1 l2 : list A) :
  StronglySorted R l1 -> StronglySorted R l2 -> Permutation l1 l2 ->
  (forall x y, In x l1 -> In y l1 -> R x y -> R y x -> x = y) ->
  l1 = l2.
Proof.
  intros H1; revert l2; induction H1 as [|a l1 Hl1 IH Ha];
    intros l2 H2 HP Hanti.
  - apply Permutation_nil in HP; congruence.
  - destruct l2 as [|b l2];
      [apply Permutation_sym, Permutation_nil in HP; discriminate|].
    assert (E : a = b).
    { assert (Hb : In b (a :: l1))
        by (eapply Permutation_in; [symmetry; exact HP | simpl; auto]).
      assert (Ha' : In a (b :: l2))
        by (eapply Permutation_in; [exact HP | simpl; auto]).
      destruct Hb as [Hb | Hb]; [exact Hb|].
      destruct Ha' as [Ha' | Ha']; [congruence|].
      inversion H2 as [|? ? _ Hbl2]; subst.
      rewrite Forall_forall in Ha, Hbl2.
      apply Hanti; simpl; auto. }
    subst b; f_equal.
    inversion H2; subst.
    apply IH; [assumption | eapply Permutation_cons_inv; exact HP|].
    intros x y Hx Hy; apply Hanti; simpl; auto.
Qed.
End SortedLists.

(** The embedding of [sort] is not one algorithm among others: for a
    consistent comparator, the sorted, stable rearrangement of a list is
    unique, and [array_sort] computes it. *)
Section StableSort.
Context {A : Type}.
Variable compareFn : A -> A -> Z.

Hypothesis compareFn_flip :
  forall x y, Z.sgn (compareFn y x) = - Z.sgn (compareFn x y).
Hypothesis compareFn_trans :
  forall x y z, compareFn x y <= 0 -> compareFn y z <= 0 -> compareFn x z <= 0.

Lemma compareFn_refl (x : A) : compareFn x x = 0.
Proof.
  pose proof (compareFn_flip x x) as H.
  apply Z.sgn_null_iff; lia.
Qed.

Lemma compareFn_flip_le (x y : A) : compareFn x y <= 0 -> 0 <= compareFn y x.
Proof.
  intros H; destruct (Z.lt_ge_cases (compareFn y x) 0) as [L|L]; [|exact L].
  apply Z.sgn_neg_iff in L.
  pose proof (compareFn_flip y x) as Hf; rewrite L in Hf.
  assert (Hs : Z.sgn (compareFn x y) = 1) by lia.
  apply Z.sgn_pos_iff in Hs; lia.
Qed.

Lemma compareFn_flip_ge (x y : A) : 0 <= compareFn x y -> compareFn y x <= 0.
Proof.
  intros H; destruct (Z.lt_ge_cases 0 (compareFn y x)) as [L|L]; [|exact L].
  apply Z.sgn_pos_iff in L.
  pose proof (compareFn_flip y x) as Hf; rewrite L in Hf.
  assert (Hs : Z.sgn (compareFn x y) = -1) by lia.
  apply Z.sgn_neg_iff in Hs; lia.
Qed.

Lemma compareFn_equiv_trans (x y z : A) :
  compareFn x y = 0 -> compareFn x z = 0 -> compareFn y z = 0.
Proof.
  intros Hy Hz.
  assert (H1 : compareFn y x <= 0) by (apply compareFn_flip_ge; lia).
  assert (H2 : compareFn z x <= 0) by (apply compareFn_flip_ge; lia).
  assert (H3 : compareFn y z <= 0)
    by (apply (compareFn_trans _ x); [exact H1 | lia]).
  assert (H4 : compareFn z y <= 0)
    by (apply (compareFn_trans _ x); [exact H2 | lia]).
  apply compareFn_flip_le in H4; lia.
Qed.

(** Insertion does not reorder the elements that compare equal to [x]. *)
Lemma sort_insert_stable (x y : A) (l : list A) :
  filter (fun e => compareFn x e =? 0) (sort_insert compareFn y l)
  = if compareFn x y =? 0
    then y :: filter (fun e => compareFn x e =? 0) l
    else filter (fun e => compareFn x e =? 0) l.
Proof.
  induction l as [|z l IH]; [reflexivity|].
  cbn [sort_insert].
  destruct (compareFn y z <=? 0) eqn:E; [reflexivity|].
  cbn [filter]; rewrite IH.
  destruct (compareFn x y =? 0) eqn:Ey, (compareFn x z =? 0) eqn:Ez;
    try reflexivity.
  apply Z.eqb_eq in Ey, Ez; apply Z.leb_gt in E.
  pose proof (compareFn_equiv_trans _ _ _ Ey Ez); lia.
Qed.

Lemma array_sort_stable (x : A) (l : list A) :
  filter (fun e => compareFn x e =? 0) (array_sort compareFn l)
  = filter (fun e => compareFn x e =? 0) l.
Proof.
  induction l as [|y l IH]; [reflexivity|].
  change (array_sort compareFn (y :: l))
    with (sort_insert compareFn y (array_sort compareFn l)).
  rewrite sort_insert_stable, IH; reflexivity.
Qed.

Lemma stable_sorted_unique (l1 l2 : list A) :
  StronglySorted (sorts_before compareFn) l1 ->
  StronglySorted (sorts_before compareFn) l2 ->
  Permutation l1 l2 ->
  (forall x, filter (fun e => compareFn x e =? 0) l1
             = filter (fun e => compareFn x e =? 0) l2) ->
  l1 = l2.
Proof.
  intros H1; revert l2; induction H1 as [|a l1 Hl1 IH Ha];
    intros l2 H2 HP Hst.
  - apply Permutation_nil in HP; congruence.
  - destruct l2 as [|b l2];
      [apply Permutation_sym, Permutation_nil in HP; discriminate|].
    inversion H2 as [|? ? Hl2 Hb]; subst.
    assert (Hab : compareFn a b = 0).
    { assert (Hin_b : In b (a :: l1))
        by (eapply Permutation_in; [symmetry; exact HP | simpl; auto]).
      assert (Hin_a : In a (b :: l2))
        by (eapply Permutation_in; [exact HP | simpl; auto]).
      rewrite Forall_forall in Ha, Hb; unfold sorts_before in Ha, Hb.
      assert (L1 : compareFn a b <= 0).
      { destruct Hin_b as [<- | Hin_b];
          [rewrite compareFn_refl; lia | auto]. }
      assert (L2 : compareFn b a <= 0).
      { destruct Hin_a as [<- | Hin_a];
          [rewrite compareFn_refl; lia | auto]. }
      apply compareFn_flip_le in L2; lia. }
    assert (E : a = b).
    { pose proof (Hst a) as Hs; cbn [filter] in Hs.
      rewrite compareFn_refl, Hab in Hs; simpl in Hs; congruence. }
    subst b; f_equal.
    apply IH; [exact Hl2 | eapply Permutation_cons_inv; exact HP|].
    intros x; pose proof (Hst x) as Hs; cbn [filter] in Hs.
    destruct (compareFn x a =? 0); congruence.
Qed.

(** Every sorted, stable rearrangement of [l] is [array_sort l]. *)
Lemma array_sort_characterised (l l' : list A) :
  Permutation l l' ->
  StronglySorted (sorts_before compareFn) l' ->
  (forall x, filter (fun e => compareFn x e =? 0) l'
             = filter (fun e => compareFn x e =? 0) l) ->
  l' = array_sort compareFn l.
Proof.
  intros HP Hs Hst; apply stable_sorted_unique.
  - exact Hs.
  - apply array_sort_sorted; [|exact compareFn_trans].
    intros x y Hxy; apply compareFn_flip_ge; lia.
  - rewrite <- HP; apply array_sort_perm.
  - intros x; rewrite array_sort_stable; apply Hst.
Qed.
End StableSort.

Section SortedImpl.
Context {A : Type}.

Lemma StronglySorted_impl (R R' : A -> A -> Prop) (l : list A) :
  (forall x y, In x l -> In y l -> R x y -> R' x y) ->
  StronglySorted R l -> StronglySorted R' l.
Proof.
  intros HR H; induction H as [|x l Hl IH Hx]; constructor.
  - apply IH; intros; apply HR; simpl; auto.
  - rewrite Forall_forall in *; intros y Hy; apply HR; simpl; auto.
Qed.
End SortedImpl.

(** ** The derived view: sorting *)

Section Sorting.
Context {host : HostStrings}.

Hypothesis collation : consistent_collation host.

Lemma localeCompare_antisym (a b : jsstring) :
  Z.sgn (localeCompare b a) = - Z.sgn (localeCompare a b).
Proof. apply (proj1 collation). Qed.

Lemma localeCompare_trans (a b c : jsstring) :
  localeCompare a b <= 0 -> localeCompare b c <= 0 -> localeCompare a c <= 0.
Proof. apply (proj2 collation). Qed.

Lemma localeCompare_flip_pos (a b : jsstring) :
  0 < localeCompare a b -> localeCompare b a < 0.
Proof.
  intros H; apply Z.sgn_neg_iff; rewrite localeCompare_antisym.
  apply Z.sgn_pos_iff in H; rewrite H; reflexivity.
Qed.

Lemma localeCompare_flip_nonneg (a b : jsstring) :
  0 <= localeCompare a b -> localeCompare b a <= 0.
Proof.
  intros H; destruct (Z.eq_dec (localeCompare a b) 0) as [E|E].
  - pose proof (localeCompare_antisym a b) as Ha.
    rewrite E in Ha; simpl in Ha; apply Z.sgn_null_iff in Ha; lia.
  - apply Z.lt_le_incl, localeCompare_flip_pos; lia.
Qed.

Lemma localeCompare_flip_nonpos (a b : jsstring) :
  localeCompare a b <= 0 -> 0 <= localeCompare b a.
Proof.
  intros H; destruct (Z.lt_ge_cases (localeCompare b a) 0) as [L|L];
    [|exact L].
  apply Z.sgn_neg_iff in L.
  pose proof (localeCompare_antisym b a) as Ha; rewrite L in Ha.
  assert (Hs : Z.sgn (localeCompare a b) = 1) by lia.
  apply Z.sgn_pos_iff in Hs; lia.
Qed.

Lemma compareItems_total (o : SortOption) (x y : DocumentItem) :
  0 < compareItems o x y -> compareItems o y x <= 0.
Proof.
  destruct o as [[|] [|]]; unfold compareItems; simpl;
    destruct x as [tx nx dx | nx fx], y as [ty ny dy | ny fy]; simpl;
    intros H; try lia;
    try (apply Z.lt_le_incl, localeCompare_flip_pos; exact H);
    match goal with
    | |- - localeCompare ?a ?b <= 0 =>
        pose proof (localeCompare_flip_nonneg a b);
        pose proof (localeCompare_flip_nonpos b a); lia
    end.
Qed.

Lemma localeCompare_trans_desc (a b c : jsstring) :
  - localeCompare a b <= 0 -> - localeCompare b c <= 0 ->
  - localeCompare a c <= 0.
Proof.
  intros H1 H2.
  assert (H1' : localeCompare b a <= 0)
    by (apply localeCompare_flip_nonneg; lia).
  assert (H2' : localeCompare c b <= 0)
    by (apply localeCompare_flip_nonneg; lia).
  pose proof (localeCompare_trans _ _ _ H2' H1') as H3.
  apply localeCompare_flip_nonpos in H3; lia.
Qed.

Lemma compareItems_trans (o : SortOption) (x y z : DocumentItem) :
  compareItems o x y <= 0 -> compareItems o y z <= 0 ->
  compareItems o x z <= 0.
Proof.
  destruct o as [[|] [|]]; unfold compareItems; simpl.
  - apply localeCompare_trans.
  - apply localeCompare_trans_desc.
  - destruct x, y, z; simpl; try lia; apply localeCompare_trans.
  - destruct x, y, z; simpl; try lia; apply localeCompare_trans_desc.
Qed.

Lemma compareItems_flip (o : SortOption) (x y : DocumentItem) :
  Z.sgn (compareItems o y x) = - Z.sgn (compareItems o x y).
Proof.
  destruct o as [[|] [|]]; unfold compareItems; simpl;
    destruct x as [tx nx dx | nx fx], y as [ty ny dy | ny fy]; simpl;
    try reflexivity; rewrite ?Z.sgn_opp; try apply localeCompare_antisym;
    f_equal; apply localeCompare_antisym.
Qed.

(** The sorted view is the one sorted, stable rearrangement of the
    filtered entries: what any conforming [sort] returns. *)
Lemma currentView_characterised (o : SortOption) (l l' : list DocumentItem) :
  Permutation l l' ->
  StronglySorted (sorts_before (compareItems o)) l' ->
  (forall x, filter (fun e => compareItems o x e =? 0) l'
             = filter (fun e => compareItems o x e =? 0) l) ->
  l' = array_sort (compareItems o) l.
Proof.
  apply array_sort_characterised;
    [apply compareItems_flip | apply compareItems_trans].
Qed.

Lemma currentView_sorted (o : SortOption) (l : list DocumentItem) :
  StronglySorted (sorts_before (compareItems o))
                 (array_sort (compareItems o) l).
Proof.
  apply array_sort_sorted;
    [apply compareItems_total | apply compareItems_trans].
Qed.

(** C4, as the code has it.  When no two different entries of the list
    have names that compare equal, sorting by name descending gives the
    exact reverse of sorting by name ascending. *)
Theorem name_sort_direction_reverses (l : list DocumentItem) :
  distinct_names l ->
  array_sort (compareItems {| field := by_name; direction := asc |}) l
  = rev (array_sort
           (compareItems {| field := by_name; direction := desc |}) l).
Proof.
  intros Hdistinct.
  set (up := {| field := by_name; direction := asc |}).
  set (down := {| field := by_name; direction := desc |}).
  apply (StronglySorted_unique (sorts_before (compareItems up))).
  - apply currentView_sorted.
  - apply StronglySorted_impl
      with (R := fun x y => sorts_before (compareItems down) y x).
    + intros x y _ _; unfold sorts_before, compareItems; simpl; intros H.
      apply localeCompare_flip_nonneg; lia.
    + apply StronglySorted_rev, currentView_sorted.
  - rewrite <- Permutation_rev, <- !array_sort_perm; reflexivity.
  - intros x y Hx Hy H1 H2.
    apply (Permutation_in _ (Permutation_sym (array_sort_perm _ l))) in Hx.
    apply (Permutation_in _ (Permutation_sym (array_sort_perm _ l))) in Hy.
    apply Hdistinct; try assumption.
    unfold sorts_before, compareItems in H1, H2; simpl in H1, H2.
    apply localeCompare_flip_nonpos in H2; lia.
Qed.

(** Inserting a folder under date sort: it passes every file and stops
    at the first folder. *)
Lemma date_insert_folder (d : SortDirection) (x : DocumentItem)
  (fs ds : list DocumentItem) :
  isFolderItem x = true ->
  Forall (fun f => isFileItem f = true) fs ->
  Forall (fun f => isFolderItem f = true) ds ->
  sort_insert (compareItems {| field := by_date; direction := d |}) x
              (fs ++ ds)
  = fs ++ x :: ds.
Proof.
  intros Hx Hfs Hds; induction Hfs as [|f fs Hf _ IH]; simpl.
  - destruct Hds as [|y ds Hy _]; [reflexivity|].
    destruct x; [discriminate|]; destruct y; [discriminate|]; reflexivity.
  - destruct x; [discriminate|]; destruct f; [|discriminate].
    simpl; rewrite IH; reflexivity.
Qed.

(** Inserting a file under date sort: it never passes a folder. *)
Lemma date_insert_file (d : SortDirection) (x : DocumentItem)
  (fs ds : list DocumentItem) :
  isFileItem x = true ->
  Forall (fun f => isFolderItem f = true) ds ->
  sort_insert (compareItems {| field := by_date; direction := d |}) x
              (fs ++ ds)
  = sort_insert (compareItems {| field := by_date; direction := d |}) x fs
    ++ ds.
Proof.
  intros Hx Hds; induction fs as [|f fs IH]; simpl.
  - destruct Hds as [|y ds Hy _]; [reflexivity|].
    destruct x; [|discriminate]; destruct y; [discriminate|]; reflexivity.
  - destruct (compareItems _ x f <=? 0); [reflexivity|].
    rewrite IH; reflexivity.
Qed.

Lemma filter_folders_are_folders (l : list DocumentItem) :
  Forall (fun f => isFolderItem f = true) (filter isFolderItem l).
Proof. rewrite Forall_forall; intros x Hx; apply filter_In in Hx; tauto. Qed.

Lemma filter_files_are_files (l : list DocumentItem) :
  Forall (fun f => isFileItem f = true) (filter isFileItem l).
Proof. rewrite Forall_forall; intros x Hx; apply filter_In in Hx; tauto. Qed.

(** Under date sort the result is the files, sorted, followed by the
    folders in the order of the input. *)
Lemma date_sort_decompose (d : SortDirection) (l : list DocumentItem) :
  let byDate := compareItems {| field := by_date; direction := d |} in
  array_sort byDate l
  = array_sort byDate (filter isFileItem l) ++ filter isFolderItem l.
Proof.
  intros byDate; induction l as [|x l IH]; [reflexivity|].
  change (array_sort byDate (x :: l))
    with (sort_insert byDate x (array_sort byDate l)).
  rewrite IH.
  change (filter isFolderItem (x :: l))
    with (if isFolderItem x then x :: filter isFolderItem l
          else filter isFolderItem l).
  change (filter isFileItem (x :: l))
    with (if isFileItem x then x :: filter isFileItem l
          else filter isFileItem l).
  assert (Hfile : isFileItem x = negb (isFolderItem x)) by reflexivity.
  destruct (isFolderItem x) eqn:Hx; rewrite Hfile; simpl negb; cbv iota.
  - apply date_insert_folder; [exact Hx | | apply filter_folders_are_folders].
    apply array_sort_Forall, filter_files_are_files.
  - change (array_sort byDate (x :: filter isFileItem l))
      with (sort_insert byDate x (array_sort byDate (filter isFileItem l))).
    apply date_insert_file; [|apply filter_folders_are_folders].
    rewrite Hfile; reflexivity.
Qed.

Lemma files_sorted_by_date (d : SortDirection) (l : list DocumentItem) :
  Forall (fun f => isFileItem f = true) l ->
  StronglySorted (sorts_before
                    (compareItems {| field := by_date; direction := d |})) l ->
  StronglySorted (filesInDateOrder d) l.
Proof.
  intros Hfiles; apply StronglySorted_impl.
  rewrite Forall_forall in Hfiles.
  intros x y Hx Hy; apply Hfiles in Hx, Hy.
  destruct x; [|discriminate]; destruct y; [|discriminate].
  unfold sorts_before, compareItems, filesInDateOrder; simpl.
  destruct d; [auto|].
  intros H; apply localeCompare_flip_nonneg; lia.
Qed.

Lemma filter_all_files (fs : list DocumentItem) :
  Forall (fun f => isFileItem f = true) fs ->
  filter isFileItem fs = fs /\ filter isFolderItem fs = [].
Proof.
  induction 1 as [|x fs Hx _ [IH1 IH2]]; [auto|].
  cbn [filter]; rewrite Hx, IH1, IH2; unfold isFileItem in Hx.
  destruct (isFolderItem x); [discriminate | auto].
Qed.

Lemma filter_all_folders (ds : list DocumentItem) :
  Forall (fun f => isFolderItem f = true) ds ->
  filter isFileItem ds = [] /\ filter isFolderItem ds = ds.
Proof.
  induction 1 as [|x ds Hx _ [IH1 IH2]]; [auto|].
  cbn [filter]; rewrite IH1, IH2, Hx; unfold isFileItem; rewrite Hx; auto.
Qed.

(** C5.  Under date sort, in both directions: the sorted sequence is
    its files followed by its folders, so every folder comes after every
    file; the folders are the folders of the input in their input order
    (two folders compare equal); the files are in the order of the
    comparison of their date strings, ascending or descending; and the
    descending comparator differs from the ascending one only on two
    files, where it has the opposite sign. *)
Theorem date_sort_folders_last (d : SortDirection) (l : list DocumentItem) :
  let byDate := compareItems {| field := by_date; direction := d |} in
  let sorted := array_sort byDate l in
  sorted = filter isFileItem sorted ++ filter isFolderItem sorted
  /\ filter isFolderItem sorted = filter isFolderItem l
  /\ (forall a b, isFolderItem a = true -> isFolderItem b = true ->
                  byDate a b = 0)
  /\ filter isFileItem sorted = array_sort byDate (filter isFileItem l)
  /\ StronglySorted (filesInDateOrder d) (filter isFileItem sorted)
  /\ (forall a b,
        compareItems {| field := by_date; direction := desc |} a b
        = if isFileItem a && isFileItem b
          then - compareItems {| field := by_date; direction := asc |} a b
          else compareItems {| field := by_date; direction := asc |} a b).
Proof.
  intros byDate sorted.
  pose proof (date_sort_decompose d l) as Hdec; cbv zeta in Hdec.
  fold byDate in Hdec; fold sorted in Hdec.
  set (fs := array_sort byDate (filter isFileItem l)) in *.
  set (ds := filter isFolderItem l) in *.
  assert (Hfs : Forall (fun f => isFileItem f = true) fs)
    by apply array_sort_Forall, filter_files_are_files.
  assert (Hds : Forall (fun f => isFolderItem f = true) ds)
    by apply filter_folders_are_folders.
  assert (Ffs : filter isFileItem fs = fs /\ filter isFolderItem fs = [])
    by (apply filter_all_files; exact Hfs).
  assert (Fds : filter isFileItem ds = [] /\ filter isFolderItem ds = ds)
    by (apply filter_all_folders; exact Hds).
  destruct Ffs as [Ffs1 Ffs2], Fds as [Fds1 Fds2].
  assert (E1 : filter isFileItem sorted = fs)
    by (rewrite Hdec, filter_app, Ffs1, Fds1; apply app_nil_r).
  assert (E2 : filter isFolderItem sorted = ds)
    by (rewrite Hdec, filter_app, Ffs2, Fds2; reflexivity).
  rewrite E1, E2; repeat split; try assumption; try reflexivity.
  - intros a b Ha Hb; destruct a; [discriminate|]; destruct b; [discriminate|].
    reflexivity.
  - apply files_sorted_by_date; [exact Hfs | apply currentView_sorted].
  - intros a b; destruct a, b; reflexivity.
Qed.
End Sorting.

(** ** The debounce effect *)

Lemma setFilterOptions_consistent (o : FilterOptions) (s : State) :
  debounce_consistent s -> debounce_consistent (setFilterOptions o s).
Proof.
  unfold debounce_consistent, setFilterOptions; simpl.
  destruct (strictEq (filename o) (filename (filterOptions s))) eqn:E;
    [|reflexivity].
  apply strictEq_spec in E; rewrite E; auto.
Qed.

Lemma setSearchError_consistent (e : jsstring) (s : State) :
  debounce_consistent s -> debounce_consistent (setSearchError e s).
Proof. auto. Qed.

Lemma debounceFire_consistent (s : State) :
  debounce_consistent s -> debounce_consistent (debounceFire s).
Proof.
  unfold debounce_consistent, debounceFire.
  destruct (debounceTimer s) eqn:E; simpl; [auto | rewrite E; auto].
Qed.

(** Once the timeout has fired the debounced filter is the filter. *)
Lemma debounceFire_catches_up (s : State) :
  debounce_consistent s ->
  debouncedFilter (debounceFire s) = filename (filterOptions s).
Proof.
  unfold debounce_consistent, debounceFire.
  destruct (debounceTimer s); simpl; auto.
Qed.

Lemma resume_consistent (k : Continuation) (s : State) :
  debounce_consistent s -> debounce_consistent (resume k s).
Proof.
  intros H; destruct k as [p n | p].
  - exact (setFilterOptions_consistent {| filename := [] |}
             (setCurrentPath (p ++ [n]) s) H).
  - exact (setFilterOptions_consistent {| filename := [] |}
             (setCurrentPath (slice_0_minus1 p) s) H).
Qed.

Lemma handleFilterChange_consistent (input : jsstring) (s : State) :
  debounce_consistent s -> debounce_consistent (handleFilterChange input s).
Proof.
  intros H; unfold handleFilterChange.
  rewrite validateSearchInput_cases.
  repeat match goal with
         | |- context [if ?b then _ else _] => destruct b
         end;
    try exact H;
    apply (setFilterOptions_consistent _ (setSearchError _ s)); exact H.
Qed.

Section Navigation.
Context {host : HostStrings}.

(** In every state the engine can reach, the debounce effect and the
    filter agree. *)
Lemma reachable_debounce_consistent (data : list DocumentItem) (e : Engine) :
  engine_reachable data e -> debounce_consistent (state e).
Proof.
  induction 1 as [|e e' _ IH Hstep]; [reflexivity|].
  destruct Hstep; simpl.
  - exact IH.
  - apply setFilterOptions_consistent, IH.
  - apply handleFilterChange_consistent, IH.
  - apply (setFilterOptions_consistent {| filename := [] |}), IH.
  - unfold navigateToFolder.
    destruct (find _ _) as [item|]; [destruct (isFolderItem item)|]; exact IH.
  - exact IH.
  - apply resume_consistent, IH.
  - apply debounceFire_consistent, IH.
Qed.

(** ** Navigation *)

Lemma find_first_named (n : jsstring) (view : list DocumentItem)
  (item : DocumentItem) :
  first_named n view item ->
  find (fun x => strictEq (name x) n) view = Some item.
Proof.
  intros (pre & post & -> & Hn & Hpre).
  induction Hpre as [|x pre Hx _ IH]; simpl.
  - rewrite Hn, strictEq_refl; reflexivity.
  - destruct (strictEq (name x) n) eqn:E; [|exact IH].
    apply strictEq_spec in E; contradiction.
Qed.

Lemma find_not_named (n : jsstring) (view : list DocumentItem) :
  Forall (fun x => name x <> n) view ->
  find (fun x => strictEq (name x) n) view = None.
Proof.
  induction 1 as [|x view Hx _ IH]; simpl; [reflexivity|].
  destruct (strictEq (name x) n) eqn:E; [|exact IH].
  apply strictEq_spec in E; contradiction.
Qed.

(** What [find] returns is the first entry with the name. *)
Lemma find_named_first (n : jsstring) (view : list DocumentItem)
  (item : DocumentItem) :
  find (fun x => strictEq (name x) n) view = Some item ->
  first_named n view item.
Proof.
  induction view as [|x view IH]; simpl; [discriminate|].
  destruct (strictEq (name x) n) eqn:E.
  - intros [= <-]; apply strictEq_spec in E.
    exists [], view; auto.
  - intros H; destruct (IH H) as (pre & post & -> & Hn & Hpre).
    exists (x :: pre), post; repeat split; auto.
    constructor; [|exact Hpre].
    intros Hx; apply strictEq_spec in Hx; congruence.
Qed.

Lemma navigateToFolder_folder (n : jsstring) (s : State) (item : DocumentItem) :
  first_named n (currentDocuments s) item -> isFolderItem item = true ->
  navigateToFolder n s
  = (setIsLoading true s, Some (AfterNavigateToFolder (currentPath s) n)).
Proof.
  intros Hfirst Hfolder; unfold navigateToFolder.
  rewrite (find_first_named _ _ _ Hfirst), Hfolder; reflexivity.
Qed.

Lemma navigateToFolder_file (n : jsstring) (s : State) (item : DocumentItem) :
  first_named n (currentDocuments s) item -> isFolderItem item = false ->
  navigateToFolder n s = (s, None).
Proof.
  intros Hfirst Hfile; unfold navigateToFolder.
  rewrite (find_first_named _ _ _ Hfirst), Hfile; reflexivity.
Qed.

Lemma navigateToFolder_absent (n : jsstring) (s : State) :
  Forall (fun x => name x <> n) (currentDocuments s) ->
  navigateToFolder n s = (s, None).
Proof.
  intros Habsent; unfold navigateToFolder.
  rewrite (find_not_named _ _ Habsent); reflexivity.
Qed.

(** C8.  When no entry of the current view has the name, or the first
    entry that has it is a file, [navigateToFolder] changes nothing: the
    state is the state before the call, field by field, no callback is
    left pending, so the loading flag is never set and no error appears. *)
Theorem navigateToFolder_missing_or_file (n : jsstring) (s : State) :
  Forall (fun x => name x <> n) (currentDocuments s)
  \/ (exists item, first_named n (currentDocuments s) item
                   /\ isFolderItem item = false) ->
  navigateToFolder n s = (s, None)
  /\ await (navigateToFolder n s) = s.
Proof.
  intros H.
  assert (E : navigateToFolder n s = (s, None)).
  { destruct H as [H | (item & Hfirst & Hfile)].
    - apply navigateToFolder_absent, H.
    - eapply navigateToFolder_file; eassumption. }
  rewrite E; split; reflexivity.
Qed.

(** What a completed navigation leaves: the filter text and the error
    are empty and the loading flag is off.  The debounced filter is not
    written: it keeps its value until the timeout of the debounce effect
    fires, and is empty from then on. *)
Lemma resume_clears (k : Continuation) (s : State) :
  debounce_consistent s ->
  filename (filterOptions (resume k s)) = []
  /\ searchError (resume k s) = []
  /\ isLoading (resume k s) = false
  /\ debouncedFilter (resume k s) = debouncedFilter s
  /\ debouncedFilter (debounceFire (resume k s)) = [].
Proof.
  intros H.
  pose proof (debounceFire_catches_up _ (resume_consistent k s H)) as Hd.
  destruct k; simpl in *; repeat split; assumption.
Qed.

(** A navigation that got past its lookup, followed to its completion:
    whether or not the pending debounce timeout fires during the wait, the
    path is the one computed from the captured path, the filter text and
    the error are empty and the loading flag is off; the debounced filter
    is empty once the timeout set by the reset has fired, and it is the
    one of before the call when no timeout was pending then. *)
Lemma completion_clears (k : Continuation) (s s' : State) :
  debounce_consistent s ->
  completion (setIsLoading true s, Some k) s' ->
  currentPath s' = target k
  /\ documents s' = documents s
  /\ sortOption s' = sortOption s
  /\ filename (filterOptions s') = []
  /\ searchError s' = []
  /\ isLoading s' = false
  /\ debounce_consistent s'
  /\ debouncedFilter (debounceFire s') = []
  /\ (debounceTimer s = None -> debouncedFilter s' = debouncedFilter s).
Proof.
  intros Hc Hs'.
  assert (Hst : exists st,
             s' = resume k st /\ debounce_consistent st
             /\ documents st = documents s /\ sortOption st = sortOption s
             /\ (debounceTimer s = None ->
                 debouncedFilter st = debouncedFilter s)).
  { destruct Hs' as [-> | ->]; unfold await, awaitFired; cbn [fst snd].
    - exists (setIsLoading true s); repeat split; auto.
    - exists (debounceFire (setIsLoading true s)).
      split; [reflexivity|].
      split; [apply debounceFire_consistent; exact Hc|].
      unfold debounceFire; simpl.
      destruct (debounceTimer s); repeat split; auto; discriminate. }
  destruct Hst as (st & -> & Hcst & Hd & Hso & Hkeep).
  destruct (resume_clears k st Hcst) as (H1 & H2 & H3 & H4 & H5).
  split; [destruct k; reflexivity|].
  split; [destruct k; exact Hd|].
  split; [destruct k; exact Hso|].
  split; [exact H1|]; split; [exact H2|]; split; [exact H3|].
  split; [apply resume_consistent; exact Hcst|].
  split; [exact H5|].
  intros Hnone; rewrite H4; apply Hkeep; exact Hnone.
Qed.

(** C2, as the code has it.  After a successful navigation completes,
    forward into a folder of the current view or back, whether or not a
    pending debounce timeout fired during the wait, the filter text (the
    one field that is both the raw and the validated filter) and the
    search error are empty.  The navigation never writes the debounced
    filter: resuming leaves it as it finds it, so with no timeout pending
    at the call it still has its old value on completion; it is empty
    once the timeout of the debounce effect set by the reset has fired. *)
Theorem navigation_clears_filter (n : jsstring) (s : State) :
  debounce_consistent s ->
  (forall k st, debouncedFilter (resume k st) = debouncedFilter st)
  /\ ((exists item, first_named n (currentDocuments s) item
                    /\ isFolderItem item = true) ->
      forall forward, completion (navigateToFolder n s) forward ->
        currentPath forward = currentPath s ++ [n]
        /\ filename (filterOptions forward) = [] /\ searchError forward = []
        /\ (debounceTimer s = None ->
            debouncedFilter forward = debouncedFilter s)
        /\ debouncedFilter (debounceFire forward) = [])
  /\ (forall back, completion (navigateBack s) back ->
        currentPath back = slice_0_minus1 (currentPath s)
        /\ filename (filterOptions back) = [] /\ searchError back = []
        /\ (debounceTimer s = None -> debouncedFilter back = debouncedFilter s)
        /\ debouncedFilter (debounceFire back) = []).
Proof.
  intros Hc.
  split; [intros [p m | p] st; reflexivity|].
  split.
  - intros (item & Hfirst & Hfolder) forward Hf.
    rewrite (navigateToFolder_folder _ _ _ Hfirst Hfolder) in Hf.
    destruct (completion_clears _ _ _ Hc Hf)
      as (H1 & _ & _ & H4 & H5 & _ & _ & H8 & H9).
    repeat split; assumption.
  - intros back Hb; unfold navigateBack in Hb.
    destruct (completion_clears _ _ _ Hc Hb)
      as (H1 & _ & _ & H4 & H5 & _ & _ & H8 & H9).
    repeat split; assumption.
Qed.

(** C9, as the code has it.  When the name resolves to a folder of the
    current view, [navigateToFolder] followed, once it has completed, by
    [navigateBack] leaves the path at the value it had before the two
    calls; after the first call the path is the old one with the name
    appended; after each of the two calls the filter text and the search
    error are empty and the loading flag is off.  Neither call resets the
    debounced filter: after each it is empty only once the timeout of the
    debounce effect has fired.  All this whether or not a pending debounce
    timeout fires during either wait. *)
Theorem navigate_into_then_back (n : jsstring) (s : State)
  (item : DocumentItem) :
  debounce_consistent s ->
  first_named n (currentDocuments s) item -> isFolderItem item = true ->
  forall s1, completion (navigateToFolder n s) s1 ->
  forall s2, completion (navigateBack s1) s2 ->
    currentPath s1 = currentPath s ++ [n]
    /\ currentPath s2 = currentPath s
    /\ filename (filterOptions s1) = [] /\ searchError s1 = []
    /\ isLoading s1 = false
    /\ filename (filterOptions s2) = [] /\ searchError s2 = []
    /\ isLoading s2 = false
    /\ debouncedFilter (debounceFire s1) = []
    /\ debouncedFilter (debounceFire s2) = []
    /\ (forall k st, debouncedFilter (resume k st) = debouncedFilter st).
Proof.
  intros Hc Hfirst Hfolder s1 H1 s2 H2.
  rewrite (navigateToFolder_folder _ _ _ Hfirst Hfolder) in H1.
  destruct (completion_clears _ _ _ Hc H1)
    as (P1 & _ & _ & F1 & E1 & L1 & C1 & D1 & _).
  unfold navigateBack in H2.
  destruct (completion_clears _ _ _ C1 H2)
    as (P2 & _ & _ & F2 & E2 & L2 & _ & D2 & _).
  simpl in P1, P2.
  repeat split; try assumption.
  - rewrite P2, P1; unfold slice_0_minus1; apply removelast_last.
  - intros [p m | p] st; reflexivity.
Qed.

(** An entry the filter rejects is not in the view. *)
Lemma currentDocuments_pass_filter (s : State) (x : DocumentItem) :
  debouncedFilter s <> [] ->
  In x (currentDocuments s) ->
  includes (toLowerCase (name x)) (toLowerCase (debouncedFilter s)) = true.
Proof.
  intros Hne; unfold currentDocuments.
  destruct (walkPath (documents s) (currentPath s)) as [current|];
    [|intros []].
  intros Hx.
  apply (Permutation_in _ (Permutation_sym (array_sort_perm _ _))) in Hx.
  unfold applyFilter in Hx.
  destruct (debouncedFilter s) as [|c f]; [contradiction|].
  apply filter_In in Hx; tauto.
Qed.

(** The view holds only children of the folder the path leads to. *)
Lemma currentDocuments_children (s : State) (x : DocumentItem) :
  In x (currentDocuments s) ->
  exists current,
    walkPath (documents s) (currentPath s) = Some current /\ In x current.
Proof.
  unfold currentDocuments.
  destruct (walkPath (documents s) (currentPath s)) as [current|];
    [|intros []].
  intros Hx; exists current; split; [reflexivity|].
  apply (Permutation_in _ (Permutation_sym (array_sort_perm _ _))) in Hx.
  unfold applyFilter in Hx.
  destruct (debouncedFilter s); [exact Hx | apply filter_In in Hx; tauto].
Qed.

Lemma find_file_first (n : jsstring) (pre post : list DocumentItem)
  (f : DocumentItem) :
  name f = n -> isFolderItem f = false ->
  Forall (fun x => name x = n -> isFolderItem x = false) pre ->
  exists item,
    find (fun x => strictEq (name x) n) (pre ++ f :: post) = Some item
    /\ isFolderItem item = false.
Proof.
  intros Hn Hf Hpre; induction Hpre as [|x pre Hx _ IH]; simpl.
  - exists f; rewrite Hn, strictEq_refl; auto.
  - destruct (strictEq (name x) n) eqn:E; [|exact IH].
    apply strictEq_spec in E; exists x; auto.
Qed.

(** C10.  [navigateToFolder] decides on the first entry of the current
    view (filtered and sorted) that has the name, whatever its kind: it
    proceeds when that entry is a folder and does nothing when it is a
    file.  Hence, when a file with the name stands in the view with no
    folder of that name before it, the call does nothing; and when the
    debounced filter is active and the name does not contain it, the
    view has no entry with the name and the call does nothing, whatever
    the folder at the path holds. *)
Theorem navigateToFolder_first_match (n : jsstring) (s : State) :
  (forall item, first_named n (currentDocuments s) item ->
     navigateToFolder n s
     = if isFolderItem item
       then (setIsLoading true s,
             Some (AfterNavigateToFolder (currentPath s) n))
       else (s, None))
  /\ (forall pre f post,
        currentDocuments s = pre ++ f :: post ->
        name f = n -> isFolderItem f = false ->
        Forall (fun x => name x = n -> isFolderItem x = false) pre ->
        navigateToFolder n s = (s, None))
  /\ (debouncedFilter s <> [] ->
      includes (toLowerCase n) (toLowerCase (debouncedFilter s)) = false ->
      Forall (fun x => name x <> n) (currentDocuments s)
      /\ navigateToFolder n s = (s, None)).
Proof.
  split; [|split].
  - intros item Hfirst; destruct (isFolderItem item) eqn:E.
    + apply (navigateToFolder_folder _ _ _ Hfirst E).
    + apply (navigateToFolder_file _ _ _ Hfirst E).
  - intros pre f post Hview Hn Hf Hpre.
    destruct (find_file_first n pre post f Hn Hf Hpre) as (item & Hfind & Hi).
    unfold navigateToFolder; rewrite Hview, Hfind, Hi; reflexivity.
  - intros Hne Hexcl.
    assert (Habsent : Forall (fun x => name x <> n) (currentDocuments s)).
    { rewrite Forall_forall; intros x Hx Hname.
      apply (currentDocuments_pass_filter _ _ Hne) in Hx.
      rewrite Hname in Hx; congruence. }
    split; [exact Habsent | apply navigateToFolder_absent, Habsent].
Qed.
End Navigation.

(** ** Going back at the root *)




(** ** The focus index *)

Section FocusIndex.
Variable o : KeyboardNavigationOptions.

Lemma length_pos_iff :
  (0 <? documentsLength o) = true <-> opt_documents o <> [].
Proof.
  unfold documentsLength; rewrite Z.ltb_lt.
  destruct (opt_documents o); simpl; split;
    try lia; try congruence; intros; lia.
Qed.

(** A key event keeps the index between -1 and the last position. *)
Lemma handleKeyDown_in_bounds (event : KeyboardEvent) (i : Z) :
  -1 <= i <= documentsLength o - 1 ->
  -1 <= fst (handleKeyDown o event i) <= documentsLength o - 1.
Proof.
  intros Hi; unfold handleKeyDown; fold (documentsLength o).
  destruct (targetIsTextInput event); [exact Hi|].
  destruct (key event); simpl;
    repeat match goal with
           | |- context [if ?b then _ else _] =>
               let E := fresh "E" in destruct b eqn:E; simpl
           | |- context [match ?x with Some _ => _ | None => _ end] =>
               destruct x; simpl
           end;
    try exact Hi;
    repeat match goal with
           | H : (0 <? _) = true |- _ => apply Z.ltb_lt in H
           end;
    lia.
Qed.

Lemma arrowDown_from_none (event : KeyboardEvent) :
  key event = ArrowDown -> targetIsTextInput event = false ->
  opt_documents o <> [] ->
  handleKeyDown o event (-1) = (0, [PreventDefault; FocusDocumentItem 0]).
Proof.
  intros Hk Ht Hne; unfold handleKeyDown; fold (documentsLength o).
  rewrite Hk, Ht.
  apply length_pos_iff in Hne; rewrite Hne.
  apply Z.ltb_lt in Hne.
  replace (Z.min (-1 + 1) (documentsLength o - 1)) with 0 by lia.
  reflexivity.
Qed.

Lemma arrowUp_not_below_zero (event : KeyboardEvent) (i : Z) :
  key event = ArrowUp -> 0 <= i -> 0 <= fst (handleKeyDown o event i).
Proof.
  intros Hk Hi; unfold handleKeyDown; rewrite Hk.
  destruct (targetIsTextInput event); [exact Hi|].
  destruct (0 <? _); simpl; lia.
Qed.

Lemma home_end_index (event : KeyboardEvent) (i : Z) :
  targetIsTextInput event = false ->
  (key event = Home ->
   fst (handleKeyDown o event i)
   = if 0 <? documentsLength o then 0 else i)
  /\ (key event = End_ ->
      fst (handleKeyDown o event i)
      = if 0 <? documentsLength o then documentsLength o - 1 else i).
Proof.
  intros Ht; unfold handleKeyDown; fold (documentsLength o); rewrite Ht.
  split; intros ->; destruct (0 <? documentsLength o); reflexivity.
Qed.
End FocusIndex.

Lemma step_in_bounds (c c' : Coordinator) :
  step c c' -> focus_in_bounds c -> focus_in_bounds c'.
Proof.
  unfold focus_in_bounds; intros Hstep Hc; destruct Hstep; simpl.
  - apply handleKeyDown_in_bounds; exact Hc.
  - unfold documentsLength; lia.
  - unfold documentsLength in *; rewrite H; exact Hc.
Qed.

Lemma reachable_in_bounds (c : Coordinator) :
  reachable c -> focus_in_bounds c.
Proof.
  induction 1 as [o | c c' _ IH Hstep].
  - unfold focus_in_bounds, documentsLength, mount; simpl; lia.
  - exact (step_in_bounds _ _ Hstep IH).
Qed.

(** C1.  Along every sequence of key events and renders, where a render
    with another [documents] sequence resets the index to -1, the focus
    index [i] satisfies [-1 <= i], and [i < length documents] when the
    sequence is not empty.  ArrowDown from -1 gives 0, ArrowUp from an
    index that is at least 0 stays at least 0, and Home and End give 0 and
    [length - 1] when the sequence is not empty and leave the index alone
    when it is empty. *)
Theorem focus_index_in_bounds (c : Coordinator) :
  reachable c ->
  let docs := opt_documents (options c) in
  let n := Z.of_nat (List.length docs) in
  let i := currentFocusIndex c in
  -1 <= i
  /\ (docs <> [] -> i < n)
  /\ (forall event,
        key event = ArrowDown -> targetIsTextInput event = false ->
        docs <> [] -> i = -1 ->
        fst (handleKeyDown (options c) event i) = 0)
  /\ (forall event,
        key event = ArrowUp -> 0 <= i ->
        0 <= fst (handleKeyDown (options c) event i))
  /\ (forall event,
        key event = Home -> targetIsTextInput event = false ->
        (docs <> [] -> fst (handleKeyDown (options c) event i) = 0)
        /\ (docs = [] -> fst (handleKeyDown (options c) event i) = i))
  /\ (forall event,
        key event = End_ -> targetIsTextInput event = false ->
        (docs <> [] -> fst (handleKeyDown (options c) event i) = n - 1)
        /\ (docs = [] -> fst (handleKeyDown (options c) event i) = i)).
Proof.
  intros Hreach docs n i.
  pose proof (reachable_in_bounds c Hreach) as Hb.
  unfold focus_in_bounds, documentsLength in Hb; fold docs n i in Hb.
  pose proof (length_pos_iff (options c)) as Hpos.
  unfold documentsLength in Hpos; fold docs n in Hpos.
  assert (Hempty : docs = [] -> (0 <? n) = false).
  { intros E; unfold n; rewrite E; reflexivity. }
  split; [lia|]; split; [intros; lia|].
  split; [|split; [|split]].
  - intros event Hk Ht Hne ->.
    rewrite (arrowDown_from_none _ event Hk Ht Hne); reflexivity.
  - intros event Hk Hi; apply arrowUp_not_below_zero; assumption.
  - intros event Hk Ht.
    destruct (home_end_index (options c) event i Ht) as [Hh _].
    rewrite (Hh Hk); unfold documentsLength; fold docs n; split; intros Hd.
    + apply Hpos in Hd; rewrite Hd; reflexivity.
    + rewrite (Hempty Hd); reflexivity.
  - intros event Hk Ht.
    destruct (home_end_index (options c) event i Ht) as [_ He].
    rewrite (He Hk); unfold documentsLength; fold docs n; split; intros Hd.
    + apply Hpos in Hd; rewrite Hd; reflexivity.
    + rewrite (Hempty Hd); reflexivity.
Qed.

(** ** The host to compute with is consistent *)

Lemma codeUnitCompare_antisym (a b : jsstring) :
  Z.sgn (codeUnitCompare b a) = - Z.sgn (codeUnitCompare a b).
Proof.
  revert b; induction a as [|x a IH]; intros [|y b]; simpl; try reflexivity.
  rewrite (N.compare_antisym x y).
  destruct (N.compare x y); simpl; [apply IH | reflexivity | reflexivity].
Qed.

Lemma codeUnitCompare_trans (a b c : jsstring) :
  codeUnitCompare a b <= 0 -> codeUnitCompare b c <= 0 ->
  codeUnitCompare a c <= 0.
Proof.
  revert b c; induction a as [|x a IH]; intros [|y b] [|z c]; simpl; try lia.
  destruct (N.compare_spec x y), (N.compare_spec y z), (N.compare_spec x z);
    try lia; subst; try lia.
  apply IH.
Qed.

Lemma simpleHost_consistent : consistent_collation simpleHost.
Proof.
  split; [exact codeUnitCompare_antisym | exact codeUnitCompare_trans].
Qed.

Lemma sampleTree_distinct_names : @distinct_names simpleHost sampleTree.
Proof.
  intros x y Hx Hy; simpl in Hx, Hy.
  repeat (destruct Hx as [<- | Hx]; [|]); try contradiction;
    repeat (destruct Hy as [<- | Hy]; [|]); try contradiction;
    vm_compute; intros H; try reflexivity; discriminate H.
Qed.

(** ** The properties on the sample *)

(** The three rejections of the test suite. *)
Example rejects_51_letters :
  handleFilterChange (repeat 97%N 51) sampleState
  = setSearchError tooLongMessage sampleState.
Proof. reflexivity. Qed.

Example rejects_invalid_character :
  handleFilterChange (js "test<file") sampleState
  = setSearchError invalidCharsMessage sampleState.
Proof. reflexivity. Qed.

Example rejects_three_spaces :
  handleFilterChange (js "test   file") sampleState
  = setSearchError excessiveSpacesMessage sampleState.
Proof. reflexivity. Qed.

Example sample_view_by_name :
  map name (@currentDocuments simpleHost sampleState)
  = [js "Cost centres"; js "Employee Handbook"; js "Expenses"; js "Misc";
     js "Public Holiday policy"].
Proof. reflexivity. Qed.

Example sample_view_filtered :
  @currentDocuments simpleHost (filteredState (js "Exp")) = [expensesFolder].
Proof. reflexivity. Qed.

Lemma focus_index_in_bounds_witness :
  let c := {| options := sampleOptions;
              currentFocusIndex :=
                fst (handleKeyDown sampleOptions (keyDown End_) (-1)) |} in
  reachable c /\ -1 <= currentFocusIndex c /\ currentFocusIndex c < 5.
Proof.
  intros c.
  assert (Hreach : reachable c).
  { apply (reachable_step (mount sampleOptions)); [constructor|].
    apply (step_keydown (mount sampleOptions) (keyDown End_)). }
  split; [exact Hreach|].
  destruct (focus_index_in_bounds c Hreach) as (Hlow & Hhigh & _).
  split; [exact Hlow | apply Hhigh; discriminate].
Defined.

Lemma validateSearchInput_precedence_witness :
  let input := js "<" ++ repeat 97%N 50 in
  let accepted := js " exp " in
  ((50 < List.length input)%nat /\ hasInvalidChar input
   /\ searchError (handleFilterChange input sampleState) = tooLongMessage)
  /\ (~ whitespaceOnly accepted /\ (List.length accepted <= 50)%nat
      /\ ~ hasInvalidChar accepted /\ ~ hasWhitespaceRun accepted
      /\ filename (filterOptions (handleFilterChange accepted sampleState))
         = js "exp").
Proof.
  intros input accepted.
  assert (Hlen : (50 < List.length input)%nat) by (vm_compute; lia).
  assert (Hinv : hasInvalidChar input)
    by (exists 60%N; split; vm_compute; auto).
  assert (A1 : ~ whitespaceOnly accepted)
    by (intros H; apply trim_empty_test in H; discriminate H).
  assert (A2 : (List.length accepted <= 50)%nat) by (vm_compute; lia).
  assert (A3 : ~ hasInvalidChar accepted)
    by (intros H; apply testInvalidChars_spec in H; discriminate H).
  assert (A4 : ~ hasWhitespaceRun accepted)
    by (intros H; apply testExcessiveSpaces_spec in H; discriminate H).
  pose proof (validateSearchInput_precedence input sampleState)
    as (_ & _ & _ & _ & _ & Hlong & _).
  pose proof (validateSearchInput_precedence accepted sampleState)
    as (_ & _ & _ & _ & Hacc & _).
  split; [split; [exact Hlen | split; [exact Hinv | exact (Hlong Hlen Hinv)]]|].
  split; [exact A1|]; split; [exact A2|]; split; [exact A3|].
  split; [exact A4|].
  destruct (Hacc A1 A2 A3 A4) as (_ & _ & Hstored & _).
  exact Hstored.
Defined.

(** C4 as stated fails: two files of the same name keep their order in
    both directions, so the descending result is not the reverse of the
    ascending one, for the bare sort and for the view of a tree that holds
    the two files. *)
Lemma name_sort_reverse_counterexample :
  let up := {| field := by_name; direction := asc |} in
  let down := {| field := by_name; direction := desc |} in
  array_sort (@compareItems simpleHost up) twoReports
  <> rev (array_sort (@compareItems simpleHost down) twoReports)
  /\ @currentDocuments simpleHost (setSortOption up (initialState twoReports))
     <> rev (@currentDocuments simpleHost
               (setSortOption down (initialState twoReports))).
Proof. vm_compute; split; discriminate. Qed.

Lemma name_sort_direction_reverses_witness :
  consistent_collation simpleHost
  /\ @distinct_names simpleHost sampleTree
  /\ array_sort (@compareItems simpleHost
                   {| field := by_name; direction := asc |}) sampleTree
     = rev (array_sort (@compareItems simpleHost
                          {| field := by_name; direction := desc |})
                       sampleTree).
Proof.
  split; [exact simpleHost_consistent|].
  split; [exact sampleTree_distinct_names|].
  exact (@name_sort_direction_reverses simpleHost simpleHost_consistent
           sampleTree sampleTree_distinct_names).
Defined.

Lemma date_sort_folders_last_witness :
  consistent_collation simpleHost
  /\ filter isFolderItem
       (array_sort (@compareItems simpleHost
                      {| field := by_date; direction := desc |}) sampleTree)
     = filter isFolderItem sampleTree.
Proof.
  split; [exact simpleHost_consistent|].
  exact (proj1 (proj2 (@date_sort_folders_last simpleHost
                         simpleHost_consistent desc sampleTree))).
Defined.

(** C2 as stated fails: with the filter Exp typed and debounced, entering
    Expenses completes with the debounced filter still Exp. *)
Lemma navigation_debounced_counterexample :
  let s := filteredState (js "Exp") in
  let s' := await (@navigateToFolder simpleHost (js "Expenses") s) in
  currentPath s' = [js "Expenses"]
  /\ isLoading s' = false
  /\ debouncedFilter s' = js "Exp"
  /\ debouncedFilter s' <> [].
Proof. vm_compute; repeat split; discriminate. Qed.

Lemma navigation_clears_filter_witness :
  let s := filteredState (js "Exp") in
  let forward := await (@navigateToFolder simpleHost (js "Expenses") s) in
  debounce_consistent s
  /\ first_named (js "Expenses") (@currentDocuments simpleHost s) expensesFolder
  /\ completion (@navigateToFolder simpleHost (js "Expenses") s) forward
  /\ filename (filterOptions forward) = []
  /\ debouncedFilter (debounceFire forward) = [].
Proof.
  intros s forward.
  assert (Hc : debounce_consistent s) by reflexivity.
  assert (Hfirst : first_named (js "Expenses")
                     (@currentDocuments simpleHost s) expensesFolder)
    by (apply find_named_first; reflexivity).
  assert (Hcomp : completion (@navigateToFolder simpleHost (js "Expenses") s)
                    forward) by (left; reflexivity).
  split; [exact Hc|]; split; [exact Hfirst|]; split; [exact Hcomp|].
  destruct (proj1 (proj2 (@navigation_clears_filter simpleHost (js "Expenses")
                            s Hc))
              (ex_intro _ expensesFolder (conj Hfirst eq_refl)) forward Hcomp)
    as (_ & H1 & _ & _ & H2).
  split; [exact H1 | exact H2].
Defined.

(** The state of the counterexamples is one the engine reaches: type the
    filter, let the debounce elapse. *)
Lemma filteredState_reachable (f : jsstring) :
  @engine_reachable simpleHost sampleTree
    {| state := filteredState f; pending := [] |}.
Proof.
  apply (er_step sampleTree
           {| state := setFilterOptions {| filename := f |} sampleState;
              pending := [] |}).
  - apply (er_step sampleTree {| state := sampleState; pending := [] |}).
    + apply er_init.
    + apply (es_setFilterOptions {| state := sampleState; pending := [] |}).
  - apply (es_debounceFire
             {| state := setFilterOptions {| filename := f |} sampleState;
                pending := [] |}).
Qed.



(** C7 fails on the code.  With the filter exp stored, the input of two
    spaces trims to the empty string and raises no error, and the stored
    filter is still exp instead of the empty string. *)
Theorem whitespace_input_not_normalised :
  let s := filteredState (js "exp") in
  let s' := handleFilterChange (js "  ") s in
  trim (js "  ") = []
  /\ searchError s' = []
  /\ filename (filterOptions s') = js "exp"
  /\ filename (filterOptions s') <> [].
Proof.
  intros s s'; unfold s'.
  rewrite handleFilterChange_whitespaceOnly;
    [|discriminate | repeat constructor].
  repeat split; discriminate.
Qed.

Lemma navigateToFolder_missing_or_file_witness :
  Forall (fun x => name x <> js "Payroll")
         (@currentDocuments simpleHost sampleState)
  /\ @navigateToFolder simpleHost (js "Payroll") sampleState
     = (sampleState, None).
Proof.
  assert (H : Forall (fun x => name x <> js "Payroll")
                     (@currentDocuments simpleHost sampleState))
    by (repeat constructor; discriminate).
  split; [exact H|].
  exact (proj1 (@navigateToFolder_missing_or_file simpleHost (js "Payroll")
                  sampleState (or_introl H))).
Defined.

(** C9 as stated fails.  With the filter Exp typed and debounced, after
    entering Expenses and going back, each call completed, the path is
    restored but the debounced filter is still Exp after either call; and
    when [navigateBack] is called before the navigation into Expenses has
    completed, its 200ms elapse first and the resumption of the first call
    writes the path last, which ends at Expenses. *)
Lemma navigate_into_then_back_counterexample :
  let s := filteredState (js "Exp") in
  let s1 := await (@navigateToFolder simpleHost (js "Expenses") s) in
  let s2 := await (navigateBack s1) in
  let first := @navigateToFolder simpleHost (js "Expenses") s in
  let second := navigateBack (fst first) in
  let kF := AfterNavigateToFolder [] (js "Expenses") in
  let kB := AfterNavigateBack [] in
  debounceTimer s = None
  /\ (currentPath s2 = currentPath s
      /\ debouncedFilter s1 = js "Exp" /\ debouncedFilter s2 = js "Exp"
      /\ debouncedFilter s2 <> [])
  /\ (snd first = Some kF /\ snd second = Some kB
      /\ currentPath (resume kF (resume kB (fst second))) = [js "Expenses"]
      /\ currentPath (resume kF (resume kB (fst second))) <> currentPath s).
Proof. vm_compute; repeat split; discriminate. Qed.

Lemma navigate_into_then_back_witness :
  let s := filteredState (js "Exp") in
  let s1 := awaitFired (@navigateToFolder simpleHost (js "Expenses") s) in
  let s2 := await (navigateBack s1) in
  debounce_consistent s
  /\ first_named (js "Expenses") (@currentDocuments simpleHost s) expensesFolder
  /\ isFolderItem expensesFolder = true
  /\ completion (@navigateToFolder simpleHost (js "Expenses") s) s1
  /\ completion (navigateBack s1) s2
  /\ currentPath s2 = currentPath s
  /\ debouncedFilter (debounceFire s2) = [].
Proof.
  intros s s1 s2.
  assert (Hc : debounce_consistent s) by reflexivity.
  assert (Hfirst : first_named (js "Expenses")
                     (@currentDocuments simpleHost s) expensesFolder)
    by (apply find_named_first; reflexivity).
  assert (H1 : completion (@navigateToFolder simpleHost (js "Expenses") s) s1)
    by (right; reflexivity).
  assert (H2 : completion (navigateBack s1) s2) by (left; reflexivity).
  split; [exact Hc|]; split; [exact Hfirst|]; split; [reflexivity|].
  split; [exact H1|]; split; [exact H2|].
  destruct (@navigate_into_then_back simpleHost (js "Expenses") s
              expensesFolder Hc Hfirst eq_refl s1 H1 s2 H2)
    as (_ & P2 & _ & _ & _ & _ & _ & _ & _ & D2 & _).
  split; [exact P2 | exact D2].
Defined.

Lemma navigateToFolder_first_match_witness :
  let s := filteredState (js "emp") in
  In expensesFolder (documents s)
  /\ debouncedFilter s <> []
  /\ @navigateToFolder simpleHost (js "Expenses") s = (s, None).
Proof.
  intros s.
  assert (Hne : debouncedFilter s <> []) by discriminate.
  split; [simpl; auto|]; split; [exact Hne|].
  exact (proj2 (proj2 (proj2 (@navigateToFolder_first_match simpleHost
                                (js "Expenses") s)) Hne eq_refl)).
Defined.

(** * Further properties of the code *)

(** ** The derived view *)

Lemma walkPath_app (data : list DocumentItem) (p q : list jsstring) :
  walkPath data (p ++ q)
  = match walkPath data p with
    | Some current => walkPath current q
    | None => None
    end.
Proof.
  revert data; induction p as [|n p IH]; intros data; simpl; [reflexivity|].
  destruct (find _ data) as [[t m d | m files]|]; try reflexivity.
  apply IH.
Qed.

Lemma resolves_removelast (data : list DocumentItem) (p : list jsstring) :
  resolves data p -> resolves data (removelast p).
Proof.
  unfold resolves; intros H.
  destruct p as [|n p]; [exact H|].
  rewrite (app_removelast_last n (l := n :: p)) in H by discriminate.
  rewrite walkPath_app in H.
  destruct (walkPath data (removelast (n :: p))); [discriminate | exact H].
Qed.

(** A folder with the name among the entries: the step of the path loop
    finds a folder. *)
Lemma find_folder_named (n : jsstring) (current : list DocumentItem)
  (item : DocumentItem) :
  In item current -> isFolderItem item = true -> name item = n ->
  exists m files,
    find (fun x => isFolderItem x && strictEq (name x) n) current
    = Some (FolderItem m files).
Proof.
  intros Hin Hfolder Hname.
  destruct (find (fun x => isFolderItem x && strictEq (name x) n) current)
    as [found|] eqn:E.
  - apply find_some in E as [_ E]; apply andb_true_iff in E as [E _].
    destruct found as [t m d | m files]; [discriminate|].
    exists m, files; reflexivity.
  - apply (find_none _ _ E) in Hin.
    rewrite Hfolder, Hname, strictEq_refl in Hin; discriminate.
Qed.

Lemma handleFilterChange_frame (input : jsstring) (s : State) :
  documents (handleFilterChange input s) = documents s
  /\ currentPath (handleFilterChange input s) = currentPath s
  /\ sortOption (handleFilterChange input s) = sortOption s
  /\ debouncedFilter (handleFilterChange input s) = debouncedFilter s
  /\ isLoading (handleFilterChange input s) = isLoading s.
Proof.
  unfold handleFilterChange; rewrite validateSearchInput_cases.
  repeat match goal with
         | |- context [if ?b then _ else _] => destruct b
         end; repeat split; reflexivity.
Qed.

Lemma resume_frame (k : Continuation) (s : State) :
  documents (resume k s) = documents s
  /\ currentPath (resume k s) = target k
  /\ sortOption (resume k s) = sortOption s.
Proof. destruct k; repeat split; reflexivity. Qed.

Section DerivedView.
Context {host : HostStrings}.

(** The view depends on the tree, the path, the sort option and the
    debounced filter only. *)
Lemma currentDocuments_ext (s s' : State) :
  documents s' = documents s -> currentPath s' = currentPath s ->
  sortOption s' = sortOption s -> debouncedFilter s' = debouncedFilter s ->
  currentDocuments s' = currentDocuments s.
Proof. unfold currentDocuments; intros -> -> -> ->; reflexivity. Qed.

(** X1.  When the path leads to a folder, an entry is in the view exactly
    when it is a child of that folder and the debounced filter is empty or
    the lower-cased name contains the lower-cased filter; with an empty
    filter the view is a rearrangement of the children, and in every case
    it is no longer than the children. *)
Theorem currentDocuments_membership (s : State)
  (current : list DocumentItem) :
  walkPath (documents s) (currentPath s) = Some current ->
  (forall x,
     In x (currentDocuments s)
     <-> In x current
         /\ (debouncedFilter s = []
             \/ includes (toLowerCase (name x))
                         (toLowerCase (debouncedFilter s)) = true))
  /\ (debouncedFilter s = [] -> Permutation current (currentDocuments s))
  /\ (List.length (currentDocuments s) <= List.length current)%nat.
Proof.
  intros Hwalk; unfold currentDocuments; rewrite Hwalk.
  split; [|split].
  - intros x.
    assert (Hperm : In x (array_sort (compareItems (sortOption s))
                            (applyFilter (debouncedFilter s) current))
                    <-> In x (applyFilter (debouncedFilter s) current)).
    { split; apply Permutation_in;
        [symmetry|]; apply array_sort_perm. }
    rewrite Hperm.
    unfold applyFilter; destruct (debouncedFilter s) as [|c f].
    + split; [intros H; split; auto | tauto].
    + rewrite filter_In; split; intros [H1 H2]; split; auto.
      destruct H2 as [H2 | H2]; [discriminate | exact H2].
  - intros ->; apply array_sort_perm.
  - rewrite array_sort_length; unfold applyFilter.
    destruct (debouncedFilter s); [lia | apply filter_length_le].
Qed.

(** A successful lookup of [navigateToFolder] names a folder the path
    loop will find. *)
Lemma navigateToFolder_target_resolves (n : jsstring) (s s' : State)
  (k : Continuation) :
  navigateToFolder n s = (s', Some k) ->
  resolves (documents s) (target k)
  /\ documents s' = documents s /\ currentPath s' = currentPath s.
Proof.
  unfold navigateToFolder.
  destruct (find _ (currentDocuments s)) as [item|] eqn:F; [|discriminate].
  destruct (isFolderItem item) eqn:Hfolder; [|discriminate].
  intros [= <- <-]; split; [|split; reflexivity].
  apply find_some in F as [Hin Hname]; apply strictEq_spec in Hname.
  destruct (currentDocuments_children _ _ Hin) as (current & Hwalk & Hc).
  destruct (find_folder_named n current item Hc Hfolder Hname)
    as (m & files & Hfind).
  unfold resolves, target; rewrite walkPath_app, Hwalk; simpl.
  rewrite Hfind; discriminate.
Qed.

Lemma navigateToFolder_frame (n : jsstring) (s : State) :
  documents (fst (navigateToFolder n s)) = documents s
  /\ currentPath (fst (navigateToFolder n s)) = currentPath s
  /\ sortOption (fst (navigateToFolder n s)) = sortOption s
  /\ debouncedFilter (fst (navigateToFolder n s)) = debouncedFilter s.
Proof.
  unfold navigateToFolder.
  destruct (find _ _) as [item|]; [destruct (isFolderItem item)|];
    repeat split; reflexivity.
Qed.

(** X3.  In every state the engine reaches, whatever the interleaving of
    clicks, keystrokes and timeouts, the tree is the one loaded at the
    start, the current path leads to a folder of it, and so does the path
    that each pending navigation will write. *)
Theorem engine_path_resolves (data : list DocumentItem) (e : Engine) :
  engine_reachable data e ->
  documents (state e) = data
  /\ resolves data (currentPath (state e))
  /\ Forall (fun k => resolves data (target k)) (pending e).
Proof.
  induction 1 as [|e e' _ (Hd & Hp & Hk) Hstep].
  - repeat split; [discriminate | constructor].
  - destruct Hstep; simpl.
    + auto.
    + auto.
    + destruct (handleFilterChange_frame input (state e)) as (F1 & F2 & _).
      rewrite F1, F2; auto.
    + auto.
    + destruct (navigateToFolder_frame folderName (state e)) as (F1 & F2 & _).
      rewrite F1, F2; repeat split; try assumption.
      destruct (navigateToFolder folderName (state e)) as [s' [k|]] eqn:E;
        simpl; [|exact Hk].
      apply Forall_app; split; [exact Hk|]; constructor; [|constructor].
      destruct (navigateToFolder_target_resolves _ _ _ _ E) as (R & _).
      rewrite Hd in R; exact R.
    + repeat split; try assumption.
      apply Forall_app; split; [exact Hk|]; constructor; [|constructor].
      apply resolves_removelast; exact Hp.
    + destruct (resume_frame k (state e)) as (F1 & F2 & _).
      rewrite F1, F2; rewrite H in Hk.
      apply Forall_app in Hk as [Hk1 Hk2].
      apply Forall_cons_iff in Hk2 as [Hk0 Hk2].
      repeat split; [exact Hd | exact Hk0 | apply Forall_app; auto].
    + unfold debounceFire; destruct (debounceTimer (state e)); simpl; auto.
Qed.
End DerivedView.

(** ** The filter text and its debounce *)

Lemma trimStart_fixed (s : jsstring) :
  match s with [] => True | c :: _ => isWhiteSpace c = false end ->
  trimStart s = s.
Proof. destruct s as [|c s]; simpl; [reflexivity | intros ->; reflexivity]. Qed.

Lemma trim_fixed (s : jsstring) :
  match s with [] => True | c :: _ => isWhiteSpace c = false end ->
  match rev s with [] => True | c :: _ => isWhiteSpace c = false end ->
  trim s = s.
Proof.
  intros Hhead Hlast; unfold trim, trimEnd.
  rewrite (trimStart_fixed s Hhead), (trimStart_fixed (rev s) Hlast).
  apply rev_involutive.
Qed.

Lemma trim_idempotent (s : jsstring) : trim (trim s) = trim s.
Proof.
  destruct (trim_decompose s) as (pre & post & _ & _ & _ & Hhead & Hlast).
  apply trim_fixed; assumption.
Qed.

Lemma trim_length (s : jsstring) :
  (List.length (trim s) <= List.length s)%nat.
Proof.
  destruct (trim_decompose s) as (pre & post & E & _).
  rewrite E at 2; rewrite !length_app; lia.
Qed.

Lemma trim_hasInvalidChar (s : jsstring) :
  hasInvalidChar (trim s) -> hasInvalidChar s.
Proof.
  destruct (trim_decompose s) as (pre & post & E & _).
  intros (c & Hin & Hc); exists c; split; [|exact Hc].
  rewrite E; apply in_or_app; right; apply in_or_app; left; exact Hin.
Qed.

Lemma trim_hasWhitespaceRun (s : jsstring) :
  hasWhitespaceRun (trim s) -> hasWhitespaceRun s.
Proof.
  destruct (trim_decompose s) as (pre & post & E & _).
  intros (p & a & b & c & q & Ht & Ha & Hb & Hc).
  exists (pre ++ p), a, b, c, (q ++ post); split; [|auto].
  rewrite E, Ht, <- !app_assoc; reflexivity.
Qed.

Lemma validFilter_nil : validFilter [].
Proof.
  repeat split; simpl; try lia.
  - intros (c & [] & _).
  - intros (pre & a & b & c & post & E & _); destruct pre; discriminate.
Qed.

(** What [handleFilterChange] stores is the old filter or a valid one. *)
Lemma handleFilterChange_stores (input : jsstring) (s : State) :
  filterOptions (handleFilterChange input s) = filterOptions s
  \/ validFilter (filename (filterOptions (handleFilterChange input s))).
Proof.
  unfold handleFilterChange; rewrite validateSearchInput_cases.
  destruct (strictEq (trim input) []) eqn:E1.
  { destruct (negb (strictEq [] []) || strictEq input []);
      [right; apply validFilter_nil | left; reflexivity]. }
  destruct (50 <? Z.of_nat (List.length input)) eqn:E2.
  { destruct (negb (strictEq [] []) || strictEq input []);
      [right; apply validFilter_nil | left; reflexivity]. }
  destruct (testInvalidChars input) eqn:E3.
  { destruct (negb (strictEq [] []) || strictEq input []);
      [right; apply validFilter_nil | left; reflexivity]. }
  destruct (testExcessiveSpaces input) eqn:E4.
  { destruct (negb (strictEq [] []) || strictEq input []);
      [right; apply validFilter_nil | left; reflexivity]. }
  rewrite E1; simpl; right; repeat split.
  - pose proof (trim_length input); apply Z.ltb_ge in E2; lia.
  - intros H; apply trim_hasInvalidChar, testInvalidChars_spec in H.
    congruence.
  - intros H; apply trim_hasWhitespaceRun, testExcessiveSpaces_spec in H.
    congruence.
  - apply trim_idempotent.
Qed.

(** X4.  The stored filter text is always a valid search term: if it is
    valid (at most 50 code units, no invalid character, no run of three
    white-space characters, trimmed) before a keystroke, a clear, a
    click on a folder, a go-back or the end of a navigation, it is valid
    after it. *)
Theorem stored_filter_stays_valid (s : State) :
  validFilter (filename (filterOptions s)) ->
  (forall input,
     validFilter (filename (filterOptions (handleFilterChange input s))))
  /\ validFilter (filename (filterOptions (clearSearch s)))
  /\ validFilter (filename (filterOptions (searchBoxEscape s)))
  /\ (forall k, validFilter (filename (filterOptions (resume k s))))
  /\ validFilter (filename (filterOptions (fst (navigateBack s))))
  /\ validFilter (filename (filterOptions (debounceFire s))).
Proof.
  intros Hs.
  assert (Hh : forall input,
             validFilter
               (filename (filterOptions (handleFilterChange input s)))).
  { intros input; destruct (handleFilterChange_stores input s) as [E | H];
      [rewrite E; exact Hs | exact H]. }
  split; [exact Hh|].
  split; [apply validFilter_nil|].
  split.
  { unfold searchBoxEscape.
    destruct (filename (filterOptions s)) eqn:E; [rewrite E; exact Hs|].
    apply Hh. }
  split; [intros [p n | p]; apply validFilter_nil|].
  split; [exact Hs|].
  unfold debounceFire; destruct (debounceTimer s); exact Hs.
Qed.

(** X5.  The text the controlled search box shows is accepted as it is:
    when the stored filter is valid and no error is shown, submitting the
    stored filter again leaves the state as it is. *)
Theorem resubmit_stored_filter (s : State) :
  validFilter (filename (filterOptions s)) -> searchError s = [] ->
  handleFilterChange (filename (filterOptions s)) s = s.
Proof.
  intros (Hlen & Hinv & Hrun & Htrim) Herr.
  destruct s as [d p so [f] df l e t]; simpl in *; subst e.
  unfold handleFilterChange; rewrite validateSearchInput_cases.
  destruct f as [|c f].
  { reflexivity. }
  rewrite Htrim; cbn [strictEq].
  assert (E2 : (50 <? Z.of_nat (List.length (c :: f))) = false)
    by (apply Z.ltb_ge; lia).
  rewrite E2.
  destruct (testInvalidChars (c :: f)) eqn:E3;
    [apply testInvalidChars_spec in E3; contradiction|].
  destruct (testExcessiveSpaces (c :: f)) eqn:E4;
    [apply testExcessiveSpaces_spec in E4; contradiction|].
  cbn [negb orb]; unfold setFilterOptions; simpl.
  rewrite N.eqb_refl, strictEq_refl; reflexivity.
Qed.

Lemma handleFilterChange_nil (s : State) :
  handleFilterChange [] s = clearSearch s.
Proof. reflexivity. Qed.

(** X6.  The ways of clearing the filter agree: the empty input, Escape
    in the search box when a filter is stored, and [clearSearch] give the
    same state; Escape in the search box with no filter stored does
    nothing; clearing twice is clearing once. *)
Theorem clearing_paths_agree (s : State) :
  handleFilterChange [] s = clearSearch s
  /\ (filename (filterOptions s) <> [] -> searchBoxEscape s = clearSearch s)
  /\ (filename (filterOptions s) = [] -> searchBoxEscape s = s)
  /\ clearSearch (clearSearch s) = clearSearch s
  /\ filename (filterOptions (clearSearch s)) = []
  /\ searchError (clearSearch s) = [].
Proof.
  split; [reflexivity|].
  unfold searchBoxEscape.
  split; [destruct (filename (filterOptions s)); [congruence | reflexivity]|].
  split; [intros ->; reflexivity|].
  repeat split.
Qed.

Lemma typeInputs_frame (inputs : list jsstring) (s : State) :
  documents (typeInputs inputs s) = documents s
  /\ currentPath (typeInputs inputs s) = currentPath s
  /\ sortOption (typeInputs inputs s) = sortOption s
  /\ debouncedFilter (typeInputs inputs s) = debouncedFilter s.
Proof.
  unfold typeInputs; revert s; induction inputs as [|i inputs IH]; intros s;
    simpl; [repeat split|].
  destruct (IH (handleFilterChange i s)) as (H1 & H2 & H3 & H4).
  destruct (handleFilterChange_frame i s) as (F1 & F2 & F3 & F4 & _).
  rewrite H1, H2, H3, H4; auto.
Qed.

Lemma typeInputs_consistent (inputs : list jsstring) (s : State) :
  debounce_consistent s -> debounce_consistent (typeInputs inputs s).
Proof.
  unfold typeInputs; revert s; induction inputs as [|i inputs IH]; intros s H;
    simpl; [exact H|].
  apply IH, handleFilterChange_consistent, H.
Qed.

Lemma debounceFire_idempotent (s : State) :
  debounceFire (debounceFire s) = debounceFire s.
Proof.
  unfold debounceFire at 2 3.
  destruct (debounceTimer s) eqn:E; [reflexivity|].
  unfold debounceFire; rewrite E; reflexivity.
Qed.

Section Debounce.
Context {host : HostStrings}.

(** X7.  Typing is debounced.  Through any run of keystrokes in the
    search box the debounced filter and the view stay as they were; when
    the timeout then fires the debounced filter is the filter stored by
    the run as a whole, and a later firing changes nothing. *)
Theorem typing_is_debounced (inputs : list jsstring) (s : State) :
  debounce_consistent s ->
  let s' := typeInputs inputs s in
  debouncedFilter s' = debouncedFilter s
  /\ currentDocuments s' = currentDocuments s
  /\ debouncedFilter (debounceFire s') = filename (filterOptions s')
  /\ debounceFire (debounceFire s') = debounceFire s'.
Proof.
  intros Hc s'; unfold s'.
  destruct (typeInputs_frame inputs s) as (F1 & F2 & F3 & F4).
  split; [exact F4|].
  split; [apply currentDocuments_ext; assumption|].
  split; [apply debounceFire_catches_up, typeInputs_consistent, Hc|].
  apply debounceFire_idempotent.
Qed.

Lemma currentDocuments_unfiltered (s : State) (current : list DocumentItem) :
  walkPath (documents s) (currentPath s) = Some current ->
  debouncedFilter s = [] ->
  Permutation current (currentDocuments s).
Proof.
  intros Hwalk Hf; unfold currentDocuments; rewrite Hwalk, Hf.
  apply array_sort_perm.
Qed.

(** X8.  [clearSearch] brings the whole folder back once the debounce has
    elapsed: until the timeout fires the view is the one before the clear,
    and after it the view is a rearrangement of all the children of the
    current folder. *)
Theorem clearSearch_shows_all (s : State) (current : list DocumentItem) :
  debounce_consistent s ->
  walkPath (documents s) (currentPath s) = Some current ->
  currentDocuments (clearSearch s) = currentDocuments s
  /\ Permutation current (currentDocuments (debounceFire (clearSearch s)))
  /\ List.length (currentDocuments (debounceFire (clearSearch s)))
     = List.length current.
Proof.
  intros Hc Hwalk.
  assert (Hc' : debounce_consistent (clearSearch s))
    by (apply (setFilterOptions_consistent {| filename := [] |}), Hc).
  assert (Hd : debouncedFilter (debounceFire (clearSearch s)) = [])
    by (rewrite (debounceFire_catches_up _ Hc'); reflexivity).
  assert (Hw : walkPath (documents (debounceFire (clearSearch s)))
                 (currentPath (debounceFire (clearSearch s))) = Some current).
  { unfold debounceFire; destruct (debounceTimer (clearSearch s));
      exact Hwalk. }
  pose proof (currentDocuments_unfiltered _ _ Hw Hd) as HP.
  split; [reflexivity|]; split; [exact HP|].
  symmetry; apply Permutation_length, HP.
Qed.

Lemma resume_idempotent (k : Continuation) (s : State) :
  resume k (resume k s) = resume k s.
Proof.
  destruct k; unfold resume, setIsLoading, setSearchError, setFilterOptions,
    setCurrentPath; simpl; reflexivity.
Qed.

(** X9.  A pending navigation writes the path it computed from the path
    it captured, whatever happened since.  Of two overlapping navigations
    the one that resumes last decides the path; resuming the same
    navigation twice is resuming it once; and two activations of the same
    folder before the first completes go down one level, not two. *)
Theorem navigation_last_write_wins (s : State) :
  (forall k1 k2 st, currentPath (resume k2 (resume k1 st)) = target k2)
  /\ (forall k st, resume k (resume k st) = resume k st)
  /\ (forall n item,
        first_named n (currentDocuments s) item ->
        isFolderItem item = true ->
        let first := navigateToFolder n s in
        let second := navigateToFolder n (fst first) in
        snd second = snd first
        /\ forall k, snd first = Some k ->
             currentPath (resume k (resume k (fst second)))
             = currentPath s ++ [n])
  /\ (forall n item kF kB st,
        first_named n (currentDocuments s) item ->
        isFolderItem item = true ->
        snd (navigateToFolder n s) = Some kF ->
        snd (navigateBack s) = Some kB ->
        currentPath (resume kF (resume kB st)) = currentPath s ++ [n]
        /\ currentPath (resume kB (resume kF st))
           = slice_0_minus1 (currentPath s)).
Proof.
  split; [intros k1 k2 st; apply resume_frame|].
  split; [intros; apply resume_idempotent|].
  split.
  - intros n item Hfirst Hfolder first second.
    assert (E1 : first = (setIsLoading true s,
                          Some (AfterNavigateToFolder (currentPath s) n)))
      by (apply (navigateToFolder_folder _ _ _ Hfirst Hfolder)).
    assert (E2 : second = (setIsLoading true (setIsLoading true s),
                           Some (AfterNavigateToFolder (currentPath s) n))).
    { unfold second; rewrite E1; cbn [fst].
      apply (navigateToFolder_folder n (setIsLoading true s) item);
        [exact Hfirst | exact Hfolder]. }
    rewrite E1, E2; split; [reflexivity|].
    intros k [= <-]; reflexivity.
  - intros n item kF kB st Hfirst Hfolder HF HB.
    rewrite (navigateToFolder_folder _ _ _ Hfirst Hfolder) in HF.
    injection HF as <-; injection HB as <-.
    split; reflexivity.
Qed.

(** X10.  Once the debounce has settled (no timeout pending), the
    empty-state classification agrees with what the controls show: it is
    the search case exactly when a filter is stored, and then its search
    term is the stored filter; otherwise it is the empty-folder case when
    one can go back and the root case when one cannot. *)
Theorem emptyState_agrees_with_controls (s : State) :
  debounce_consistent s -> debounceTimer s = None ->
  let info := emptyStateInfo s in
  (es_type info = search_state <-> filename (filterOptions s) <> [])
  /\ (es_type info = search_state <-> hasSearchFilter (appOptions s) = true)
  /\ (es_type info = search_state ->
      es_searchTerm info = Some (filename (filterOptions s)))
  /\ (es_type info = empty_folder_state
      <-> filename (filterOptions s) = [] /\ canGoBack s = true)
  /\ (es_type info = root_state
      <-> filename (filterOptions s) = [] /\ canGoBack s = false).
Proof.
  unfold debounce_consistent; intros Hc Ht; rewrite Ht in Hc.
  unfold emptyStateInfo, canGoBack; simpl; rewrite <- Hc.
  destruct (debouncedFilter s) as [|c f]; simpl.
  - destruct (0 <? Z.of_nat (List.length (currentPath s))); simpl;
      repeat split; try discriminate; try congruence; try tauto;
      intros []; discriminate.
  - repeat split; try discriminate; try congruence; intros []; discriminate.
Qed.

(** X11.  Changing the sort option only reorders the view: the entries
    and their number stay.  Choosing a field keeps the direction, the
    direction button keeps the field, and pressing it twice gives back the
    sort option and the view. *)
Theorem sort_change_reorders (s : State) (o : SortOption) :
  Permutation (currentDocuments s) (currentDocuments (setSortOption o s))
  /\ List.length (currentDocuments (setSortOption o s))
     = List.length (currentDocuments s)
  /\ (forall f, direction (handleSortFieldChange o f) = direction o)
  /\ field (sortDirectionClick o) = field o
  /\ direction (sortDirectionClick o) <> direction o
  /\ sortDirectionClick (sortDirectionClick o) = o
  /\ currentDocuments
       (setSortOption (sortDirectionClick (sortDirectionClick o)) s)
     = currentDocuments (setSortOption o s).
Proof.
  assert (HP : Permutation (currentDocuments s)
                 (currentDocuments (setSortOption o s))).
  { unfold currentDocuments; simpl.
    destruct (walkPath (documents s) (currentPath s)); [|reflexivity].
    rewrite <- !array_sort_perm; reflexivity. }
  assert (Hinv : sortDirectionClick (sortDirectionClick o) = o)
    by (destruct o as [f [|]]; reflexivity).
  split; [exact HP|].
  split; [symmetry; apply Permutation_length, HP|].
  split; [reflexivity|].
  split; [reflexivity|].
  split; [destruct o as [f [|]]; discriminate|].
  split; [exact Hinv | rewrite Hinv; reflexivity].
Qed.
End Debounce.

Section SortedView.
Context {host : HostStrings}.
Hypothesis collation : consistent_collation host.

(** X12.  With a consistent [localeCompare] the view is sorted by the
    current sort option: every entry may stand before every later one.
    Sorted by name, the names of earlier entries compare at most equal to
    those of later ones when ascending, and at least equal when
    descending. *)
Theorem currentDocuments_sorted (s : State) :
  StronglySorted (sorts_before (compareItems (sortOption s)))
                 (currentDocuments s)
  /\ (sortOption s = {| field := by_name; direction := asc |} ->
      StronglySorted (fun a b => localeCompare (name a) (name b) <= 0)
                     (currentDocuments s))
  /\ (sortOption s = {| field := by_name; direction := desc |} ->
      StronglySorted (fun a b => 0 <= localeCompare (name a) (name b))
                     (currentDocuments s)).
Proof.
  assert (H : StronglySorted (sorts_before (compareItems (sortOption s)))
                (currentDocuments s)).
  { unfold currentDocuments.
    destruct (walkPath (documents s) (currentPath s)); [|constructor].
    apply (currentView_sorted collation). }
  split; [exact H|]; split; intros Ho; rewrite Ho in H;
    revert H; apply StronglySorted_impl; intros x y _ _;
    unfold sorts_before, compareItems; simpl; lia.
Qed.
End SortedView.

(** ** The key handler *)

Ltac split_key_handler :=
  repeat match goal with
         | |- context [if ?b then _ else _] =>
             let E := fresh "E" in destruct b eqn:E; simpl
         | |- context [match ?x with Some _ => _ | None => _ end] =>
             let E := fresh "E" in destruct x eqn:E; simpl
         end.

Ltac in_effects H :=
  repeat (destruct H as [H | H]; try discriminate H); try contradiction.

Lemma item_at_nth (docs : list DocumentItem) (i : Z) (item : DocumentItem) :
  item_at docs i = Some item ->
  0 <= i /\ nth_error docs (Z.to_nat i) = Some item.
Proof.
  unfold item_at; destruct (0 <=? i) eqn:E; [|discriminate].
  apply Z.leb_le in E; auto.
Qed.

Lemma handleKeyDown_textInput (o : KeyboardNavigationOptions)
  (event : KeyboardEvent) (i : Z) :
  targetIsTextInput event = true -> handleKeyDown o event i = (i, []).
Proof. unfold handleKeyDown; intros ->; reflexivity. Qed.

Lemma handleKeyDown_goBack_key (o : KeyboardNavigationOptions)
  (event : KeyboardEvent) (i : Z) :
  In CallGoBack (snd (handleKeyDown o event i)) ->
  key event = Backspace /\ opt_canGoBack o = true /\ onGoBack o = true.
Proof.
  unfold handleKeyDown.
  destruct (targetIsTextInput event); [intros []|].
  destruct (key event) eqn:K; simpl; split_key_handler;
    intros H; in_effects H.
  apply andb_true_iff in E; tauto.
Qed.

Lemma handleKeyDown_clearSearch_guard (o : KeyboardNavigationOptions)
  (event : KeyboardEvent) (i : Z) :
  In CallClearSearch (snd (handleKeyDown o event i)) ->
  key event = Escape /\ hasSearchFilter o = true /\ onClearSearch o = true.
Proof.
  unfold handleKeyDown.
  destruct (targetIsTextInput event); [intros []|].
  destruct (key event) eqn:K; simpl; split_key_handler;
    intros H; in_effects H.
  apply andb_true_iff in E; tauto.
Qed.

Lemma handleKeyDown_focusSearch_guard (o : KeyboardNavigationOptions)
  (event : KeyboardEvent) (i : Z) :
  In CallFocusSearch (snd (handleKeyDown o event i)) ->
  (key event = Key_f \/ key event = Key_F)
  /\ (ctrlKey event || metaKey event) = true.
Proof.
  unfold handleKeyDown.
  destruct (targetIsTextInput event); [intros []|].
  destruct (key event) eqn:K; simpl; split_key_handler;
    intros H; in_effects H; auto.
Qed.

Lemma handleKeyDown_focusHeader_guard (o : KeyboardNavigationOptions)
  (event : KeyboardEvent) (i : Z) :
  In FocusHeader (snd (handleKeyDown o event i)) ->
  (key event = Key_h \/ key event = Key_H)
  /\ (ctrlKey event || metaKey event) = true.
Proof.
  unfold handleKeyDown.
  destruct (targetIsTextInput event); [intros []|].
  destruct (key event) eqn:K; simpl; split_key_handler;
    intros H; in_effects H; auto.
Qed.

Lemma handleKeyDown_navigate_guard (o : KeyboardNavigationOptions)
  (event : KeyboardEvent) (i : Z) (n : jsstring) :
  In (CallNavigateToFolder n) (snd (handleKeyDown o event i)) ->
  key event = Enter /\ fst (handleKeyDown o event i) = i
  /\ exists item,
       0 <= i
       /\ nth_error (opt_documents o) (Z.to_nat i) = Some item
       /\ isFolderItem item = true /\ name item = n.
Proof.
  unfold handleKeyDown.
  destruct (targetIsTextInput event); [intros []|].
  destruct (key event) eqn:K; simpl; split_key_handler;
    intros H; in_effects H.
  injection H as <-.
  apply andb_true_iff in E1 as [E1 _].
  apply item_at_nth in E0 as [E0 E0'].
  split; [reflexivity|]; split; [reflexivity|].
  exists d; auto.
Qed.

(** X13.  The key handler calls a collaborator only under its guard.
    With a text input as the target it does nothing at all.  Go-back is
    called only for Backspace with [canGoBack]; clear-search only for
    Escape with an active filter; focus-search only for f or F with Ctrl
    or Cmd; the header is focused only for h or H with Ctrl or Cmd; and
    navigate-into is called only for Enter, with the name of the entry at
    the focus index, which is then a folder of [documents], and the index
    stays. *)
Theorem collaborators_called_under_guard (o : KeyboardNavigationOptions)
  (event : KeyboardEvent) (i : Z) :
  let r := handleKeyDown o event i in
  (targetIsTextInput event = true -> r = (i, []))
  /\ (In CallGoBack (snd r) ->
      key event = Backspace /\ opt_canGoBack o = true /\ onGoBack o = true)
  /\ (In CallClearSearch (snd r) ->
      key event = Escape /\ hasSearchFilter o = true
      /\ onClearSearch o = true)
  /\ (In CallFocusSearch (snd r) ->
      (key event = Key_f \/ key event = Key_F)
      /\ (ctrlKey event || metaKey event) = true)
  /\ (In FocusHeader (snd r) ->
      (key event = Key_h \/ key event = Key_H)
      /\ (ctrlKey event || metaKey event) = true)
  /\ (forall n, In (CallNavigateToFolder n) (snd r) ->
        key event = Enter /\ fst r = i
        /\ exists item,
             0 <= i
             /\ nth_error (opt_documents o) (Z.to_nat i) = Some item
             /\ isFolderItem item = true /\ name item = n).
Proof.
  intros r; unfold r.
  split; [apply handleKeyDown_textInput|].
  split; [apply handleKeyDown_goBack_key|].
  split; [apply handleKeyDown_clearSearch_guard|].
  split; [apply handleKeyDown_focusSearch_guard|].
  split; [apply handleKeyDown_focusHeader_guard|].
  intros n; apply handleKeyDown_navigate_guard.
Qed.

(** The effects of one key event: nothing, or [preventDefault] first; at
    most one collaborator call. *)
Lemma handleKeyDown_effects_shape (o : KeyboardNavigationOptions)
  (event : KeyboardEvent) (i : Z) :
  (snd (handleKeyDown o event i) = []
   \/ exists rest, snd (handleKeyDown o event i) = PreventDefault :: rest)
  /\ (List.length (filter isCollaboratorCall (snd (handleKeyDown o event i)))
      <= 1)%nat.
Proof.
  unfold handleKeyDown.
  destruct (targetIsTextInput event);
    [split; [left; reflexivity | simpl; lia]|].
  destruct (key event); simpl; split_key_handler;
    (split; [first [left; reflexivity | right; eexists; reflexivity]
            | simpl; lia]).
Qed.

Lemma handleKeyDown_focus_request (o : KeyboardNavigationOptions)
  (event : KeyboardEvent) (i : Z) :
  (fst (handleKeyDown o event i) <> i ->
   In (FocusDocumentItem (fst (handleKeyDown o event i)))
      (snd (handleKeyDown o event i)))
  /\ (forall j, In (FocusDocumentItem j) (snd (handleKeyDown o event i)) ->
        j = fst (handleKeyDown o event i)
        /\ (key event = ArrowDown \/ key event = ArrowUp
            \/ key event = Home \/ key event = End_)
        /\ 0 < documentsLength o).
Proof.
  unfold handleKeyDown; fold (documentsLength o).
  destruct (targetIsTextInput event);
    [split; [intros H; contradiction | intros j []]|].
  destruct (key event) eqn:K; simpl; split_key_handler;
    (split; [intros H; try contradiction; simpl; auto
            | intros j H; in_effects H]);
    try (injection H as <-);
    repeat match goal with
           | H : (0 <? _) = true |- _ => apply Z.ltb_lt in H
           end; auto 10.
Qed.

(** X14.  What one key event does.  Its effects are none, or start with
    [preventDefault], and hold at most one collaborator call.  The focus
    index changes only together with a request to focus the row at the
    new index; such a request is made only by the arrows, Home and End,
    only when [documents] is not empty, and, the index being in bounds
    before, for a position inside [documents]. *)
Theorem key_event_effects (o : KeyboardNavigationOptions)
  (event : KeyboardEvent) (i : Z) :
  -1 <= i <= documentsLength o - 1 ->
  let r := handleKeyDown o event i in
  (snd r = [] \/ exists rest, snd r = PreventDefault :: rest)
  /\ (List.length (filter isCollaboratorCall (snd r)) <= 1)%nat
  /\ (fst r <> i -> In (FocusDocumentItem (fst r)) (snd r))
  /\ (forall j, In (FocusDocumentItem j) (snd r) ->
        j = fst r
        /\ (key event = ArrowDown \/ key event = ArrowUp
            \/ key event = Home \/ key event = End_)
        /\ 0 <= j < documentsLength o).
Proof.
  intros Hi r; unfold r.
  destruct (handleKeyDown_effects_shape o event i) as [H1 H2].
  destruct (handleKeyDown_focus_request o event i) as [H3 H4].
  pose proof (handleKeyDown_in_bounds o event i Hi) as Hb.
  split; [exact H1|]; split; [exact H2|]; split; [exact H3|].
  intros j Hj; destruct (H4 j Hj) as (Ej & Hk & Hpos).
  split; [exact Ej|]; split; [exact Hk|].
  subst j.
  assert (fst (handleKeyDown o event i) <> -1); [|lia].
  clear Hb H1 H2 H3 H4.
  revert Hj; unfold handleKeyDown; fold (documentsLength o).
  destruct (targetIsTextInput event); [intros []|].
  destruct (key event); simpl; split_key_handler; intros H; in_effects H;
    lia.
Qed.

Lemma press_succ (o : KeyboardNavigationOptions) (k : Key) (n : nat) (i : Z) :
  press o k (S n) i = fst (handleKeyDown o (keyDown k) (press o k n i)).
Proof. reflexivity. Qed.

Lemma arrowDown_once (o : KeyboardNavigationOptions) (i : Z) :
  opt_documents o <> [] ->
  fst (handleKeyDown o (keyDown ArrowDown) i)
  = Z.min (i + 1) (documentsLength o - 1).
Proof.
  intros Hne; unfold handleKeyDown; fold (documentsLength o); simpl.
  apply length_pos_iff in Hne; rewrite Hne; reflexivity.
Qed.

Lemma arrowUp_once (o : KeyboardNavigationOptions) (i : Z) :
  opt_documents o <> [] ->
  fst (handleKeyDown o (keyDown ArrowUp) i) = Z.max (i - 1) 0.
Proof.
  intros Hne; unfold handleKeyDown; fold (documentsLength o); simpl.
  apply length_pos_iff in Hne; rewrite Hne; reflexivity.
Qed.

(** X15.  Arrow keys saturate.  With [documents] not empty and the index
    in bounds, [n] presses of ArrowDown move the index [n] rows down but
    not past the last row, so as many presses as there are rows always
    end on the last row; one or more presses of ArrowUp move it up but not
    above row 0; and on an empty sequence the arrows leave the index
    alone. *)
Theorem arrows_saturate (o : KeyboardNavigationOptions) (n : nat) (i : Z) :
  -1 <= i <= documentsLength o - 1 ->
  (opt_documents o <> [] ->
   press o ArrowDown n i = Z.min (i + Z.of_nat n) (documentsLength o - 1)
   /\ press o ArrowUp (S n) i = Z.max (i - Z.of_nat (S n)) 0
   /\ press o ArrowDown (List.length (opt_documents o)) i
      = documentsLength o - 1)
  /\ (opt_documents o = [] ->
      press o ArrowDown n i = i /\ press o ArrowUp n i = i).
Proof.
  intros Hi; split.
  - intros Hne.
    assert (Hdown : forall m,
               press o ArrowDown m i
               = Z.min (i + Z.of_nat m) (documentsLength o - 1)).
    { induction m as [|m IH]; [simpl; lia|].
      rewrite press_succ, IH, (arrowDown_once _ _ Hne); lia. }
    split; [apply Hdown|]; split.
    + induction n as [|n IH].
      * rewrite press_succ; simpl press.
        rewrite (arrowUp_once _ _ Hne); lia.
      * rewrite press_succ, IH, (arrowUp_once _ _ Hne); lia.
    + rewrite Hdown; unfold documentsLength in *; lia.
  - intros Hempty.
    assert (Hstay : forall k j,
               k = ArrowDown \/ k = ArrowUp ->
               fst (handleKeyDown o (keyDown k) j) = j).
    { intros k j Hk; unfold handleKeyDown; rewrite Hempty.
      destruct Hk as [-> | ->]; reflexivity. }
    split; induction n as [|n IH]; try reflexivity;
      rewrite press_succ, IH; apply Hstay; auto.
Qed.

(** ** The application *)

Section Application.
Context {host : HostStrings}.

Lemma documentsLength_appOptions (s : State) :
  documentsLength (appOptions s)
  = Z.of_nat (List.length (currentDocuments s)).
Proof. reflexivity. Qed.

Lemma performEffect_step (e : Engine) (eff : Effect) :
  performEffect e eff = e \/ engine_step e (performEffect e eff).
Proof.
  destruct eff; simpl; auto; right; constructor.
Qed.

Lemma performEffect_view (e : Engine) (eff : Effect) :
  currentDocuments (state (performEffect e eff)) = currentDocuments (state e).
Proof.
  destruct eff; simpl; try reflexivity.
  apply currentDocuments_ext; apply navigateToFolder_frame.
Qed.

Lemma performEffects_reachable (data : list DocumentItem)
  (effs : list Effect) (e : Engine) :
  engine_reachable data e ->
  engine_reachable data (fold_left performEffect effs e)
  /\ currentDocuments (state (fold_left performEffect effs e))
     = currentDocuments (state e).
Proof.
  revert e; induction effs as [|eff effs IH]; intros e He; simpl; [auto|].
  assert (He' : engine_reachable data (performEffect e eff)).
  { destruct (performEffect_step e eff) as [-> | Hs]; [exact He|].
    exact (er_step data e _ He Hs). }
  destruct (IH _ He') as [H1 H2]; split; [exact H1|].
  rewrite H2; apply performEffect_view.
Qed.

(** X16.  In the application the focus index is always inside the view
    on screen.  Along every run of key events, clicks, keystrokes in the
    search box and timeouts, with the index reset whenever the memoised
    view is recomputed, the index is -1 or a position of the current
    view, and the engine is in a state it can reach. *)
Theorem app_focus_in_view (data : list DocumentItem) (a : AppState) :
  app_reachable data a ->
  -1 <= focusIndex a
        <= Z.of_nat (List.length (currentDocuments (state (engine a)))) - 1
  /\ engine_reachable data (engine a).
Proof.
  induction 1 as [|a a' _ [Hb He] Hstep].
  - split; [simpl; lia | constructor].
  - destruct Hstep as [a event | a e' Hs | a e' Hs Hview]; simpl.
    + destruct (performEffects_reachable data
                  (snd (handleKeyDown (appOptions (state (engine a))) event
                          (focusIndex a))) (engine a) He) as [H1 H2].
      split; [|exact H1].
      rewrite H2, <- documentsLength_appOptions.
      apply handleKeyDown_in_bounds.
      rewrite documentsLength_appOptions; exact Hb.
    + split; [lia | exact (er_step data _ _ He Hs)].
    + split; [rewrite Hview; exact Hb | exact (er_step data _ _ He Hs)].
Qed.

Lemma nth_error_find_named (view : list DocumentItem) (j : nat)
  (item : DocumentItem) :
  nth_error view j = Some item ->
  exists found,
    find (fun x => strictEq (name x) (name item)) view = Some found
    /\ In found view /\ name found = name item.
Proof.
  intros Hnth; apply nth_error_In in Hnth.
  destruct (find (fun x => strictEq (name x) (name item)) view) as [found|]
    eqn:F.
  - exists found; split; [reflexivity|].
    apply find_some in F as [Hin Hn]; apply strictEq_spec in Hn; auto.
  - apply (find_none _ _ F) in Hnth; rewrite strictEq_refl in Hnth.
    discriminate.
Qed.

(** X17.  Enter opens the focused folder.  In the application, when the
    focus index points at a folder of the view and no file of the view has
    the same name, Enter outside a text input starts the navigation into
    that folder, sets the loading flag and leaves the index where it is.
    When the event lands on an element without a key handler, one
    navigation is pending; when it lands on the focused row itself, where
    the arrows put the focus, the row's own handler runs first and two
    identical navigations are pending.  Either way, once they have
    resumed, the path is the current one followed by the folder's name,
    one level down. *)
Theorem app_enter_opens_focused_folder (a : AppState) (event : KeyboardEvent)
  (item : DocumentItem) :
  let s := state (engine a) in
  key event = Enter -> targetIsTextInput event = false ->
  0 <= focusIndex a ->
  nth_error (currentDocuments s) (Z.to_nat (focusIndex a)) = Some item ->
  isFolderItem item = true ->
  (forall x, In x (currentDocuments s) -> name x = name item ->
             isFolderItem x = true) ->
  let k := AfterNavigateToFolder (currentPath s) (name item) in
  let onPage := appKeyDownAt NoHandlerTarget event a in
  let onRow := appKeyDownAt (RowTarget item) event a in
  onPage = appKeyDown event a
  /\ (state (engine onPage) = setIsLoading true s
      /\ pending (engine onPage) = pending (engine a) ++ [k]
      /\ focusIndex onPage = focusIndex a)
  /\ (state (engine onRow) = setIsLoading true s
      /\ pending (engine onRow) = pending (engine a) ++ [k; k]
      /\ focusIndex onRow = focusIndex a)
  /\ (forall st,
        currentPath (resume k st) = currentPath s ++ [name item]
        /\ currentPath (resume k (resume k st)) = currentPath s ++ [name item]).
Proof.
  intros s Hk Ht Hi Hnth Hfolder Hnofile k onPage onRow.
  assert (Hlen : focusIndex a < Z.of_nat (List.length (currentDocuments s))).
  { assert (Z.to_nat (focusIndex a) < List.length (currentDocuments s))%nat
      by (apply nth_error_Some; congruence).
    lia. }
  assert (Hkey : handleKeyDown (appOptions s) event (focusIndex a)
                 = (focusIndex a,
                    [PreventDefault; CallNavigateToFolder (name item)])).
  { unfold handleKeyDown; rewrite Ht, Hk; simpl.
    apply Z.leb_le in Hi; apply Z.ltb_lt in Hlen.
    rewrite Hi, Hlen; unfold item_at; rewrite Hi, Hnth, Hfolder.
    reflexivity. }
  destruct (nth_error_find_named _ _ _ Hnth) as (found & Hfind & Hin & Hn).
  assert (Hnav : navigateToFolder (name item) s
                 = (setIsLoading true s, Some k)).
  { unfold navigateToFolder; rewrite Hfind, (Hnofile found Hin Hn).
    reflexivity. }
  assert (Hnav2 : navigateToFolder (name item) (setIsLoading true s)
                  = (setIsLoading true s, Some k)).
  { unfold navigateToFolder.
    change (currentDocuments (setIsLoading true s))
      with (currentDocuments s).
    rewrite Hfind, (Hnofile found Hin Hn); reflexivity. }
  split; [reflexivity|].
  split.
  - unfold onPage, appKeyDownAt; fold s; rewrite Hkey; simpl.
    unfold spawn; fold s; rewrite Hnav; simpl; repeat split.
  - split; [|intros st; split; reflexivity].
    unfold onRow, appKeyDownAt; fold s; rewrite Hkey, Hk.
    unfold itemKeyOf, itemHandleKeyDown; rewrite Hfolder.
    cbn [fold_left performItemEffect performEffect snd fst].
    unfold spawn at 2; fold s; rewrite Hnav; cbn [fst snd state pending].
    unfold spawn; cbn [fst snd state pending]; rewrite Hnav2.
    cbn [fst snd]; rewrite <- app_assoc; repeat split.
Qed.

(** X18.  Backspace and Escape in the application.  Outside a text input,
    Backspace at the root and Escape with no filter stored leave the
    application exactly as it is; Backspace inside a folder starts
    [navigateBack] and Escape with a filter stored runs [clearSearch],
    both without moving the focus index. *)
Theorem app_backspace_escape (a : AppState) (event : KeyboardEvent) :
  let s := state (engine a) in
  targetIsTextInput event = false ->
  (key event = Backspace ->
   (currentPath s = [] -> appKeyDown event a = a)
   /\ (currentPath s <> [] ->
       appKeyDown event a
       = {| engine := spawn (navigateBack s) (pending (engine a));
            focusIndex := focusIndex a |}))
  /\ (key event = Escape ->
      (filename (filterOptions s) = [] -> appKeyDown event a = a)
      /\ (filename (filterOptions s) <> [] ->
          appKeyDown event a
          = {| engine := {| state := clearSearch s;
                            pending := pending (engine a) |};
               focusIndex := focusIndex a |})).
Proof.
  intros s Ht; destruct a as [[st ks] i]; simpl in s; subst s.
  unfold appKeyDown, handleKeyDown; simpl; rewrite Ht.
  split; intros ->; simpl.
  - unfold canGoBack; destruct (currentPath st) as [|n p]; simpl;
      split; intros H; try congruence; reflexivity.
  - destruct (filename (filterOptions st)) as [|c f]; simpl;
      split; intros H; try congruence; reflexivity.
Qed.
End Application.

(** ** The list and its rows *)

Lemma indexedFrom_nth (l : list DocumentItem) (k : Z) (i : nat) :
  nth_error (indexedFrom k l) i
  = option_map (fun x => (x, k + Z.of_nat i)) (nth_error l i).
Proof.
  revert k i; induction l as [|x l IH]; intros k [|i]; simpl;
    try reflexivity.
  - f_equal; f_equal; lia.
  - rewrite IH; destruct (nth_error l i); simpl; [|reflexivity].
    f_equal; f_equal; lia.
Qed.

(** X19.  What [DocumentList] renders.  An empty sequence gives the empty
    state, with the clear-search button exactly when a filter is active;
    1 to 49 documents give one row per document, row [i] showing
    [documents[i]] with index [i]; 50 documents or more give the virtual
    list over all the documents, whose height is then 600 whatever the
    length. *)
Theorem renderDocumentList_modes (docs : list DocumentItem)
  (info : EmptyStateInfo) (hasFilter : bool) :
  let n := Z.of_nat (List.length docs) in
  (docs = [] -> renderDocumentList docs info hasFilter
                = EmptyState info hasFilter)
  /\ (docs <> [] -> n < 50 ->
      renderDocumentList docs info hasFilter
      = RegularList (indexedFrom 0 docs))
  /\ (forall i, nth_error (indexedFrom 0 docs) i
                = option_map (fun x => (x, Z.of_nat i)) (nth_error docs i))
  /\ (50 <= n ->
      renderDocumentList docs info hasFilter = VirtualList 600 n 80 5 docs)
  /\ (50 <= n -> listHeight n = 600).
Proof.
  intros n; unfold renderDocumentList, VIRTUAL_SCROLLING_THRESHOLD, listHeight.
  fold n.
  split; [intros ->; reflexivity|].
  split.
  { intros Hne Hlt.
    assert (Hpos : 0 < n) by (unfold n; destruct docs; simpl; [congruence|lia]).
    destruct (n =? 0) eqn:E0; [apply Z.eqb_eq in E0; lia|].
    destruct (50 <=? n) eqn:E50; [apply Z.leb_le in E50; lia | reflexivity]. }
  split; [intros i; apply (indexedFrom_nth docs 0 i)|].
  assert (Hh : 50 <= n -> Z.min 600 (Z.max 200 (n * 20)) = 600) by lia.
  split; [|exact Hh].
  intros Hge; rewrite (Hh Hge).
  destruct (n =? 0) eqn:E0; [apply Z.eqb_eq in E0; lia|].
  destruct (50 <=? n) eqn:E50; [reflexivity | apply Z.leb_gt in E50; lia].
Qed.

Section Rows.
Context {host : HostStrings}.

Lemma In_find_named (view : list DocumentItem) (item : DocumentItem) :
  In item view ->
  exists found,
    find (fun x => strictEq (name x) (name item)) view = Some found
    /\ In found view /\ name found = name item.
Proof.
  intros Hin.
  destruct (find (fun x => strictEq (name x) (name item)) view) as [found|]
    eqn:F.
  - exists found; split; [reflexivity|].
    apply find_some in F as [Hf Hn]; apply strictEq_spec in Hn; auto.
  - apply (find_none _ _ F) in Hin; rewrite strictEq_refl in Hin.
    discriminate.
Qed.

(** X20.  Activating a row of the list.  A file row never starts a
    navigation: a click and every key leave the engine as it is.  A
    folder row of the view, when no file of the view has its name, starts
    the navigation into it on a click and on Enter, Space and ArrowRight,
    setting the loading flag and leaving pending the write of the current
    path followed by its name; ArrowLeft and the other keys do nothing to
    the engine on any row. *)
Theorem row_activation (e : Engine) (item : DocumentItem) :
  let s := state e in
  (isFolderItem item = false ->
   fold_left performItemEffect (itemHandleClick item) e = e
   /\ forall k, fold_left performItemEffect (itemHandleKeyDown item k) e = e)
  /\ (isFolderItem item = true -> In item (currentDocuments s) ->
      (forall x, In x (currentDocuments s) -> name x = name item ->
                 isFolderItem x = true) ->
      forall effs,
        effs = itemHandleClick item
        \/ effs = itemHandleKeyDown item ItemEnter
        \/ effs = itemHandleKeyDown item ItemSpace
        \/ effs = itemHandleKeyDown item ItemArrowRight ->
        fold_left performItemEffect effs e
        = {| state := setIsLoading true s;
             pending := pending e
                        ++ [AfterNavigateToFolder (currentPath s)
                              (name item)] |})
  /\ fold_left performItemEffect (itemHandleKeyDown item ItemArrowLeft) e = e
  /\ fold_left performItemEffect (itemHandleKeyDown item ItemOtherKey) e = e.
Proof.
  intros s; split; [|split; [|split; reflexivity]].
  - intros Hfile; unfold itemHandleClick, itemHandleKeyDown; rewrite Hfile.
    split; [reflexivity | intros []; reflexivity].
  - intros Hfolder Hin Hnofile effs Heffs.
    destruct (In_find_named _ _ Hin) as (found & Hfind & Hf & Hn).
    assert (Hnav : navigateToFolder (name item) s
                   = (setIsLoading true s,
                      Some (AfterNavigateToFolder (currentPath s)
                              (name item)))).
    { unfold navigateToFolder; rewrite Hfind, (Hnofile found Hf Hn).
      reflexivity. }
    unfold itemHandleClick, itemHandleKeyDown in Heffs.
    rewrite Hfolder in Heffs.
    destruct Heffs as [-> | [-> | [-> | ->]]]; simpl;
      unfold spawn; fold s; rewrite Hnav; reflexivity.
Qed.
End Rows.

(** ** An index set from outside *)

(** X21.  [setFocusIndex] stores any number, in bounds or not.  From such
    an index [j], with [documents] not empty and of length [n]: Home and
    End put the index in bounds; ArrowDown gives [min (j+1) (n-1)] and so
    re-establishes the upper bound, ArrowUp gives [max (j-1) 0] and so the
    lower one, and one of each, in either order, puts the index in bounds.
    One key alone need not: ArrowUp from [j > n] stays at or beyond [n]
    (from [j = n], the first index beyond the end, it lands on the last
    row), and ArrowDown from [j < -2] stays below -1.  Enter does nothing
    while the index is below 0 or at least [n]. *)
Theorem setFocusIndex_recovery (c : Coordinator) (j : Z) :
  opt_documents (options c) <> [] ->
  let n := documentsLength (options c) in
  let at_j := setFocusIndex j c in
  let after k c' := currentFocusIndex (keyEvent (keyDown k) c') in
  currentFocusIndex at_j = j
  /\ after Home at_j = 0
  /\ after End_ at_j = n - 1
  /\ after ArrowDown at_j <= n - 1
  /\ 0 <= after ArrowUp at_j
  /\ 0 <= after ArrowUp (keyEvent (keyDown ArrowDown) at_j) <= n - 1
  /\ 0 <= after ArrowDown (keyEvent (keyDown ArrowUp) at_j) <= n - 1
  /\ (n < j -> n <= after ArrowUp at_j)
  /\ after ArrowUp at_j = Z.max (j - 1) 0
  /\ after ArrowDown at_j = Z.min (j + 1) (n - 1)
  /\ (j = n -> after ArrowUp at_j = n - 1)
  /\ (j < -2 -> after ArrowDown at_j < -1)
  /\ (j < 0 \/ n <= j ->
      handleKeyDown (options c) (keyDown Enter) j = (j, [])).
Proof.
  intros Hne n at_j after.
  assert (Hpos : (0 <? n) = true) by (apply length_pos_iff; exact Hne).
  assert (Hn : 0 < n) by (apply Z.ltb_lt; exact Hpos).
  unfold after, at_j, keyEvent, setFocusIndex; simpl.
  rewrite !(arrowDown_once _ _ Hne), !(arrowUp_once _ _ Hne).
  fold n.
  split; [reflexivity|].
  split; [unfold handleKeyDown; fold (documentsLength (options c)); fold n;
          simpl; rewrite Hpos; reflexivity|].
  split; [unfold handleKeyDown; fold (documentsLength (options c)); fold n;
          simpl; rewrite Hpos; reflexivity|].
  repeat split; try lia.
  intros Hout; unfold handleKeyDown; fold (documentsLength (options c)).
  fold n; simpl.
  destruct (0 <=? j) eqn:E1; [|reflexivity].
  destruct (j <? n) eqn:E2; [|reflexivity].
  apply Z.leb_le in E1; apply Z.ltb_lt in E2; lia.
Qed.

(** ** Navigation and the view *)

Lemma debounceFire_frame (s : State) :
  documents (debounceFire s) = documents s
  /\ currentPath (debounceFire s) = currentPath s
  /\ sortOption (debounceFire s) = sortOption s
  /\ isLoading (debounceFire s) = isLoading s
  /\ searchError (debounceFire s) = searchError s
  /\ filterOptions (debounceFire s) = filterOptions s.
Proof.
  unfold debounceFire; destruct (debounceTimer s); repeat split.
Qed.

Section NavigationView.
Context {host : HostStrings}.

Lemma await_navigateToFolder (n : jsstring) (s : State) (item : DocumentItem) :
  find (fun x => strictEq (name x) n) (currentDocuments s) = Some item ->
  isFolderItem item = true ->
  await (navigateToFolder n s)
  = resume (AfterNavigateToFolder (currentPath s) n) (setIsLoading true s).
Proof.
  intros Hfind Hfolder; unfold navigateToFolder; rewrite Hfind, Hfolder.
  reflexivity.
Qed.

(** X22.  Entering a folder shows its contents.  When the path leads to a
    level where one entry only has the name, that entry is a folder and it
    is in the view, then [navigateToFolder], awaited, makes the path the
    old one followed by the name, the path leads to the files of that
    folder, and once the debounce has elapsed the view is a rearrangement
    of those files. *)
Theorem navigateToFolder_shows_contents (s : State) (n : jsstring)
  (files current : list DocumentItem) :
  debounce_consistent s ->
  walkPath (documents s) (currentPath s) = Some current ->
  In (FolderItem n files) (currentDocuments s) ->
  (forall x, In x current -> name x = n -> x = FolderItem n files) ->
  let s' := debounceFire (await (navigateToFolder n s)) in
  currentPath s' = currentPath s ++ [n]
  /\ walkPath (documents s') (currentPath s') = Some files
  /\ Permutation files (currentDocuments s')
  /\ List.length (currentDocuments s') = List.length files.
Proof.
  intros Hc Hwalk Hin Huniq s'.
  set (item := FolderItem n files) in *.
  destruct (currentDocuments_children _ _ Hin) as (current' & Hw' & Hcur).
  rewrite Hwalk in Hw'; injection Hw' as <-.
  destruct (In_find_named _ _ Hin) as (found & Hfind & Hf & Hn).
  assert (Efound : found = item).
  { destruct (currentDocuments_children _ _ Hf) as (c' & Hw'' & Hc').
    rewrite Hwalk in Hw''; injection Hw'' as <-.
    apply Huniq; assumption. }
  subst found.
  assert (Haw : await (navigateToFolder n s)
                = resume (AfterNavigateToFolder (currentPath s) n)
                         (setIsLoading true s))
    by (apply (await_navigateToFolder n s item); [exact Hfind | reflexivity]).
  set (s1 := await (navigateToFolder n s)) in *.
  assert (Hc1 : debounce_consistent s1)
    by (rewrite Haw; apply resume_consistent; exact Hc).
  assert (Hp1 : currentPath s1 = currentPath s ++ [n])
    by (rewrite Haw; reflexivity).
  assert (Hd1 : documents s1 = documents s) by (rewrite Haw; reflexivity).
  assert (Hf1 : filename (filterOptions s1) = [])
    by (rewrite Haw; reflexivity).
  assert (Hp' : currentPath s' = currentPath s ++ [n]).
  { unfold s', debounceFire; destruct (debounceTimer s1); exact Hp1. }
  assert (Hd' : documents s' = documents s).
  { unfold s', debounceFire; destruct (debounceTimer s1); exact Hd1. }
  assert (Hdeb : debouncedFilter s' = [])
    by (unfold s'; rewrite (debounceFire_catches_up _ Hc1); exact Hf1).
  assert (Hw : walkPath (documents s') (currentPath s') = Some files).
  { rewrite Hd', Hp', walkPath_app, Hwalk; simpl.
    destruct (find_folder_named n current item Hcur eq_refl eq_refl)
      as (m & fs & Hff).
    rewrite Hff.
    apply find_some in Hff as [Hin' Hb].
    apply andb_true_iff in Hb as [_ Hb]; apply strictEq_spec in Hb.
    simpl in Hb.
    assert (E : FolderItem m fs = item) by (apply Huniq; assumption).
    injection E as _ ->; reflexivity. }
  pose proof (currentDocuments_unfiltered _ _ Hw Hdeb) as HP.
  split; [exact Hp'|]; split; [exact Hw|]; split; [exact HP|].
  symmetry; apply Permutation_length, HP.
Qed.

(** X23.  Into a folder and back, on the view.  After [navigateToFolder]
    into a folder of the view, then [navigateBack], each awaited, and the
    debounce elapsed, the view is the unfiltered listing of the folder one
    started from, in the same sort order; it is the view one started from
    when no filter was active then. *)
Theorem into_and_back_view (s : State) (n : jsstring) (item : DocumentItem) :
  debounce_consistent s ->
  first_named n (currentDocuments s) item -> isFolderItem item = true ->
  let s2 :=
    debounceFire (await (navigateBack (await (navigateToFolder n s)))) in
  currentDocuments s2 = currentDocuments (setDebouncedFilter [] s)
  /\ (debouncedFilter s = [] -> currentDocuments s2 = currentDocuments s)
  /\ isLoading s2 = false /\ searchError s2 = []
  /\ filename (filterOptions s2) = [].
Proof.
  intros Hc Hfirst Hfolder s2.
  pose proof (navigateToFolder_folder _ _ _ Hfirst Hfolder) as Hnav.
  set (s1 := await (navigateToFolder n s)) in *.
  assert (E1 : s1 = resume (AfterNavigateToFolder (currentPath s) n)
                      (setIsLoading true s))
    by (unfold s1; rewrite Hnav; reflexivity).
  set (sb := await (navigateBack s1)) in *.
  assert (Eb : sb = resume (AfterNavigateBack (currentPath s1))
                      (setIsLoading true s1)) by reflexivity.
  assert (Hcb : debounce_consistent sb).
  { rewrite Eb; apply resume_consistent.
    rewrite E1; apply (resume_consistent _ (setIsLoading true s)); exact Hc. }
  assert (Hpb : currentPath sb = currentPath s).
  { rewrite Eb, E1; simpl; unfold slice_0_minus1; apply removelast_last. }
  assert (Hfb : filename (filterOptions sb) = []) by (rewrite Eb; reflexivity).
  assert (Hdb : documents sb = documents s) by (rewrite Eb, E1; reflexivity).
  assert (Hsb : sortOption sb = sortOption s) by (rewrite Eb, E1; reflexivity).
  assert (Hlb : isLoading sb = false) by (rewrite Eb; reflexivity).
  assert (Heb : searchError sb = []) by (rewrite Eb; reflexivity).
  clearbody sb s1.
  destruct (debounceFire_frame sb) as (F1 & F2 & F3 & F4 & F5 & F6).
  assert (Hview : currentDocuments s2
                  = currentDocuments (setDebouncedFilter [] s)).
  { apply currentDocuments_ext; unfold s2.
    - rewrite F1; exact Hdb.
    - rewrite F2; exact Hpb.
    - rewrite F3; exact Hsb.
    - rewrite (debounceFire_catches_up _ Hcb); exact Hfb. }
  split; [exact Hview|].
  split.
  { intros Hd; rewrite Hview; apply currentDocuments_ext; try reflexivity.
    simpl; symmetry; exact Hd. }
  unfold s2; rewrite F4, F5, F6; auto.
Qed.
End NavigationView.

(** ** The further properties on the sample *)

Lemma currentDocuments_membership_witness :
  let s := filteredState (js "exp") in
  walkPath (documents s) (currentPath s) = Some sampleTree
  /\ In expensesFolder (@currentDocuments simpleHost s).
Proof.
  intros s.
  assert (Hwalk : walkPath (documents s) (currentPath s) = Some sampleTree)
    by reflexivity.
  split; [exact Hwalk|].
  apply (proj1 (@currentDocuments_membership simpleHost s sampleTree Hwalk)).
  split; [simpl; auto | right; reflexivity].
Defined.

Lemma engine_path_resolves_witness :
  @engine_reachable simpleHost sampleTree
    {| state := filteredState (js "Exp"); pending := [] |}
  /\ resolves sampleTree (currentPath (filteredState (js "Exp"))).
Proof.
  split; [apply filteredState_reachable|].
  exact (proj1 (proj2 (@engine_path_resolves simpleHost sampleTree _
                         (filteredState_reachable (js "Exp"))))).
Defined.

Lemma stored_filter_stays_valid_witness :
  validFilter (filename (filterOptions sampleState))
  /\ validFilter
       (filename (filterOptions (handleFilterChange (js " exp ") sampleState))).
Proof.
  split; [apply validFilter_nil|].
  exact (proj1 (stored_filter_stays_valid sampleState validFilter_nil)
           (js " exp ")).
Defined.

Lemma resubmit_stored_filter_witness :
  let s := handleFilterChange (js " exp ") sampleState in
  validFilter (filename (filterOptions s)) /\ searchError s = []
  /\ handleFilterChange (js "exp") s = s.
Proof.
  intros s.
  assert (Hv : validFilter (filename (filterOptions s))).
  { destruct (handleFilterChange_stores (js " exp ") sampleState) as [E | H];
      [vm_compute in E; discriminate E | exact H]. }
  split; [exact Hv|]; split; [reflexivity|].
  exact (resubmit_stored_filter s Hv eq_refl).
Defined.

Lemma clearing_paths_agree_witness :
  let s := filteredState (js "exp") in
  filename (filterOptions s) <> [] /\ searchBoxEscape s = clearSearch s.
Proof.
  intros s.
  assert (Hne : filename (filterOptions s) <> []) by discriminate.
  split; [exact Hne|].
  exact (proj1 (proj2 (clearing_paths_agree s)) Hne).
Defined.

Lemma typing_is_debounced_witness :
  let s' := typeInputs [js "e"; js "ex"; js "exp"] sampleState in
  debounce_consistent sampleState
  /\ @currentDocuments simpleHost s' = @currentDocuments simpleHost sampleState
  /\ debouncedFilter (debounceFire s') = js "exp".
Proof.
  intros s'.
  assert (Hc : debounce_consistent sampleState) by reflexivity.
  destruct (@typing_is_debounced simpleHost [js "e"; js "ex"; js "exp"]
              sampleState Hc) as (_ & H2 & H3 & _).
  split; [exact Hc|]; split; [exact H2 | exact H3].
Defined.

Lemma clearSearch_shows_all_witness :
  let s := filteredState (js "exp") in
  debounce_consistent s
  /\ walkPath (documents s) (currentPath s) = Some sampleTree
  /\ List.length (@currentDocuments simpleHost s) = 1%nat
  /\ List.length (@currentDocuments simpleHost (debounceFire (clearSearch s)))
     = List.length sampleTree.
Proof.
  intros s.
  assert (Hc : debounce_consistent s) by reflexivity.
  split; [exact Hc|]; split; [reflexivity|]; split; [reflexivity|].
  exact (proj2 (proj2 (@clearSearch_shows_all simpleHost s sampleTree Hc
                         eq_refl))).
Defined.

Lemma navigation_last_write_wins_witness :
  let s := sampleState in
  let n := js "Expenses" in
  let first := @navigateToFolder simpleHost n s in
  let second := @navigateToFolder simpleHost n (fst first) in
  first_named n (@currentDocuments simpleHost s) expensesFolder
  /\ snd second = snd first.
Proof.
  intros s n first second.
  assert (Hfirst : first_named n (@currentDocuments simpleHost s)
                     expensesFolder)
    by (apply find_named_first; reflexivity).
  split; [exact Hfirst|].
  exact (proj1 (proj1 (proj2 (proj2 (@navigation_last_write_wins simpleHost s)))
                  n expensesFolder Hfirst eq_refl)).
Defined.

Lemma emptyState_agrees_with_controls_witness :
  let s := filteredState (js "exp") in
  debounce_consistent s /\ debounceTimer s = None
  /\ es_searchTerm (emptyStateInfo s) = Some (js "exp").
Proof.
  intros s.
  assert (Hc : debounce_consistent s) by reflexivity.
  assert (Ht : debounceTimer s = None) by reflexivity.
  split; [exact Hc|]; split; [exact Ht|].
  destruct (@emptyState_agrees_with_controls simpleHost s Hc Ht)
    as (H1 & _ & H3 & _).
  apply H3, H1; discriminate.
Defined.

Lemma currentDocuments_sorted_witness :
  consistent_collation simpleHost
  /\ StronglySorted
       (fun a b => @localeCompare simpleHost (name a) (name b) <= 0)
       (@currentDocuments simpleHost sampleState).
Proof.
  split; [exact simpleHost_consistent|].
  exact (proj1 (proj2 (@currentDocuments_sorted simpleHost
                         simpleHost_consistent sampleState)) eq_refl).
Defined.

Lemma collaborators_called_under_guard_witness :
  let r := handleKeyDown sampleOptions (keyDown Backspace) 2 in
  opt_canGoBack sampleOptions = false /\ ~ In CallGoBack (snd r).
Proof.
  intros r; split; [reflexivity|].
  intros H.
  destruct (proj1 (proj2 (collaborators_called_under_guard sampleOptions
                            (keyDown Backspace) 2)) H) as (_ & Hcan & _).
  discriminate Hcan.
Defined.

Lemma key_event_effects_witness :
  let r := handleKeyDown sampleOptions (keyDown ArrowDown) (-1) in
  -1 <= -1 <= documentsLength sampleOptions - 1
  /\ In (FocusDocumentItem (fst r)) (snd r).
Proof.
  intros r.
  assert (Hb : -1 <= -1 <= documentsLength sampleOptions - 1)
    by (vm_compute; split; discriminate).
  split; [exact Hb|].
  apply (proj1 (proj2 (proj2 (key_event_effects sampleOptions
                                (keyDown ArrowDown) (-1) Hb)))).
  discriminate.
Defined.

Lemma arrows_saturate_witness :
  -1 <= -1 <= documentsLength sampleOptions - 1
  /\ opt_documents sampleOptions <> []
  /\ press sampleOptions ArrowDown 7 (-1) = Z.min (-1 + 7) (5 - 1).
Proof.
  assert (Hb : -1 <= -1 <= documentsLength sampleOptions - 1)
    by (vm_compute; split; discriminate).
  assert (Hne : opt_documents sampleOptions <> []) by discriminate.
  split; [exact Hb|]; split; [exact Hne|].
  exact (proj1 (proj1 (arrows_saturate sampleOptions 7 (-1) Hb) Hne)).
Defined.

Lemma app_focus_in_view_witness :
  let a := @appKeyDown simpleHost (keyDown End_)
             {| engine := {| state := sampleState; pending := [] |};
                focusIndex := -1 |} in
  @app_reachable simpleHost sampleTree a
  /\ -1 <= focusIndex a
           <= Z.of_nat
                (List.length
                   (@currentDocuments simpleHost (state (engine a)))) - 1.
Proof.
  intros a.
  assert (Hr : @app_reachable simpleHost sampleTree a).
  { apply (ar_step sampleTree
             {| engine := {| state := sampleState; pending := [] |};
                focusIndex := -1 |}); [apply ar_init | apply app_keydown]. }
  split; [exact Hr|].
  exact (proj1 (@app_focus_in_view simpleHost sampleTree a Hr)).
Defined.

Lemma app_enter_opens_focused_folder_witness :
  let a := {| engine := {| state := sampleState; pending := [] |};
              focusIndex := 2 |} in
  let k := AfterNavigateToFolder [] (js "Expenses") in
  nth_error (@currentDocuments simpleHost sampleState) 2 = Some expensesFolder
  /\ pending (engine (@appKeyDownAt simpleHost NoHandlerTarget
                        (keyDown Enter) a)) = [k]
  /\ pending (engine (@appKeyDownAt simpleHost (RowTarget expensesFolder)
                        (keyDown Enter) a)) = [k; k].
Proof.
  intros a k.
  assert (Hnth : nth_error (@currentDocuments simpleHost sampleState) 2
                 = Some expensesFolder) by reflexivity.
  assert (Hnofile : forall x, In x (@currentDocuments simpleHost sampleState) ->
                      name x = name expensesFolder -> isFolderItem x = true).
  { intros x Hx; vm_compute in Hx.
    repeat (destruct Hx as [<- | Hx]; [vm_compute; intros E;
                                        try reflexivity; discriminate E|]).
    contradiction. }
  split; [exact Hnth|].
  assert (H0 : 0 <= 2) by discriminate.
  destruct (@app_enter_opens_focused_folder simpleHost a (keyDown Enter)
              expensesFolder eq_refl eq_refl H0 Hnth eq_refl Hnofile)
    as (_ & (_ & Hp & _) & (_ & Hr & _) & _).
  split; [exact Hp | exact Hr].
Defined.

Lemma app_backspace_escape_witness :
  let a := {| engine := {| state := sampleState; pending := [] |};
              focusIndex := 2 |} in
  targetIsTextInput (keyDown Backspace) = false
  /\ currentPath (state (engine a)) = []
  /\ @appKeyDown simpleHost (keyDown Backspace) a = a.
Proof.
  intros a; split; [reflexivity|]; split; [reflexivity|].
  exact (proj1 (proj1 (@app_backspace_escape simpleHost a (keyDown Backspace)
                         eq_refl) eq_refl) eq_refl).
Defined.

Lemma renderDocumentList_modes_witness :
  let docs := repeat expensesFolder 60 in
  50 <= Z.of_nat (List.length docs)
  /\ renderDocumentList docs (emptyStateInfo sampleState) false
     = VirtualList 600 (Z.of_nat (List.length docs)) 80 5 docs.
Proof.
  intros docs.
  assert (Hge : 50 <= Z.of_nat (List.length docs))
    by (vm_compute; discriminate).
  split; [exact Hge|].
  exact (proj1 (proj2 (proj2 (proj2
           (renderDocumentList_modes docs (emptyStateInfo sampleState)
              false)))) Hge).
Defined.

Lemma row_activation_witness :
  let e := {| state := sampleState; pending := [] |} in
  let handbook := FileItem pdf (js "Employee Handbook") (js "2017-01-06") in
  isFolderItem handbook = false
  /\ fold_left (@performItemEffect simpleHost) (itemHandleClick handbook) e = e.
Proof.
  intros e handbook; split; [reflexivity|].
  exact (proj1 (proj1 (@row_activation simpleHost e handbook) eq_refl)).
Defined.

Lemma setFocusIndex_recovery_witness :
  let c := setFocusIndex 99 (mount sampleOptions) in
  opt_documents (options (mount sampleOptions)) <> []
  /\ currentFocusIndex (keyEvent (keyDown End_) c) = 5 - 1.
Proof.
  intros c.
  assert (Hne : opt_documents (options (mount sampleOptions)) <> [])
    by discriminate.
  split; [exact Hne|].
  exact (proj1 (proj2 (proj2 (setFocusIndex_recovery (mount sampleOptions) 99
                                Hne)))).
Defined.

Lemma sampleTree_one_Expenses (x : DocumentItem) :
  In x sampleTree -> name x = js "Expenses" -> x = expensesFolder.
Proof.
  intros Hx; simpl in Hx.
  repeat (destruct Hx as [<- | Hx];
          [vm_compute; intros E; try reflexivity; discriminate E|]).
  contradiction.
Qed.

Lemma navigateToFolder_shows_contents_witness :
  let s := sampleState in
  let s' :=
    debounceFire (await (@navigateToFolder simpleHost (js "Expenses") s)) in
  debounce_consistent s
  /\ walkPath (documents s) (currentPath s) = Some sampleTree
  /\ In expensesFolder (@currentDocuments simpleHost s)
  /\ List.length (@currentDocuments simpleHost s') = 2%nat.
Proof.
  intros s s'.
  assert (Hc : debounce_consistent s) by reflexivity.
  assert (Hin : In expensesFolder (@currentDocuments simpleHost s))
    by (vm_compute; auto).
  split; [exact Hc|]; split; [reflexivity|]; split; [exact Hin|].
  exact (proj2 (proj2 (proj2
           (@navigateToFolder_shows_contents simpleHost s (js "Expenses")
              _ sampleTree Hc eq_refl Hin sampleTree_one_Expenses)))).
Defined.

Lemma into_and_back_view_witness :
  let s := sampleState in
  let s1 := await (@navigateToFolder simpleHost (js "Expenses") s) in
  let s2 := debounceFire (await (navigateBack s1)) in
  debounce_consistent s
  /\ first_named (js "Expenses") (@currentDocuments simpleHost s) expensesFolder
  /\ @currentDocuments simpleHost s2 = @currentDocuments simpleHost s.
Proof.
  intros s s1 s2.
  assert (Hc : debounce_consistent s) by reflexivity.
  assert (Hfirst : first_named (js "Expenses")
                     (@currentDocuments simpleHost s) expensesFolder)
    by (apply find_named_first; reflexivity).
  split; [exact Hc|]; split; [exact Hfirst|].
  exact (proj1 (proj2 (@into_and_back_view simpleHost s (js "Expenses")
                         expensesFolder Hc Hfirst eq_refl)) eq_refl).
Defined.

Lemma sort_change_reorders_witness :
  let o := {| field := by_date; direction := desc |} in
  List.length (@currentDocuments simpleHost (setSortOption o sampleState))
  = List.length (@currentDocuments simpleHost sampleState).
Proof.
  intros o.
  exact (proj1 (proj2 (@sort_change_reorders simpleHost sampleState o))).
Defined.
